(** * The Pulp client of ubipop (ubipop/_pulp_client.py)

    A shallow embedding of the client: the retry configuration, the
    per-worker sessions, [do_request], the search, associate and
    unassociate operations, the task tracker [wait_for_tasks] and the unit
    model ([Package], [Module], [ModuleDefaults]).

    Python values are modelled as follows.
    - JSON documents (request payloads and response bodies) are values of
      [JSON]; an object is an association list in insertion order.
    - A raised exception is a [Raise e] result; every operation that talks to
      the service threads a [State]: the thread-local sessions of the client
      and the trace of what the client did to the outside world (HTTP
      requests, sleeps, log records).
    - The service is a function from the trace so far and the request to what
      the transport hands back.
    - Library functions that are not part of the client ([urljoin],
      [Response.raise_for_status], the iteration order of a [set],
      [split_filename]) are fields of the class [Platform], next to the
      service and the module constants; [int] and [float] on environment
      strings are parameters of the section that reads the environment. *)

From Stdlib Require Import ZArith String Ascii List Floats.PrimFloat.
From stdpp Require Import gmap strings list sorting pretty.

Local Open Scope Z_scope.
Set Warnings "-register-all,-clear-no-such-hyp".

(** ** Values, exceptions and results *)

Inductive JSON : Type :=
| JNull
| JBool (b : bool)
| JNum (n : Z)
| JStr (s : string)
| JArr (xs : list JSON)
| JObj (kvs : list (string * JSON)).

Inductive Exn : Type :=
| UnsupportedTypeId
| HTTPError (status : Z)
| TransportError
| JSONDecodeError
| KeyError (key : string)
| IndexError
| TypeError
| AttributeError (attr : string)
| ValueError.

Inductive Result (A : Type) : Type :=
| Ok (a : A)
| Raise (e : Exn).
Arguments Ok {A} a.
Arguments Raise {A} e.

Definition rbind {A B} (r : Result A) (k : A → Result B) : Result B :=
  match r with
  | Ok a => k a
  | Raise e => Raise e
  end.

Notation "'do' x <- r ; k" := (rbind r (fun x => k))
  (at level 10, x pattern, r at level 100, k at level 200).

Fixpoint rmap {A B} (f : A → Result B) (l : list A) : Result (list B) :=
  match l with
  | [] => Ok []
  | a :: l' => do b <- f a; do bs <- rmap f l'; Ok (b :: bs)
  end.

Definition is_ok {A} (r : Result A) : Prop := ∃ a, r = Ok a.

(** ** Module constants: the retry configuration read from the environment *)

Record Config := {
  HTTP_TOTAL_RETRIES : Z;
  HTTP_RETRY_BACKOFF : float;
  HTTP_TIMEOUT : Z
}.

(** [urllib3.util.retry.Retry], the fields the client sets. *)
Record Retry := {
  total : Z;
  status_forcelist : list Z;
  method_whitelist : list string;
  backoff_factor : float
}.

(** [PulpRetryAdapter]: an [HTTPAdapter] whose [max_retries] is the policy
    below. *)
Record Adapter := { max_retries : Retry }.

Section Environment.
(** [int(s)] and [float(s)] on a string taken from the environment; [None]
    stands for the [ValueError] they raise. *)
Variable py_int : string → option Z.
Variable py_float : string → option float.

Definition int_of_env (o : option string) (default : Z) : Result Z :=
  match o with
  | None => Ok default
  | Some s => match py_int s with Some n => Ok n | None => Raise ValueError end
  end.

Definition float_of_env (o : option string) (default : float) : Result float :=
  match o with
  | None => Ok default
  | Some s => match py_float s with Some x => Ok x | None => Raise ValueError end
  end.

(** Lines 18-20, evaluated once when the module is imported. [float(1)] is
    [1.0]. *)
Definition load_config (environ : gmap string string) : Result Config :=
  do retries <- int_of_env (environ !! "UBIPOP_HTTP_TOTAL_RETRIES"%string) 10;
  do backoff <- float_of_env (environ !! "UBIPOP_HTTP_RETRY_BACKOFF"%string) 1%float;
  do tmo <- int_of_env (environ !! "UBIPOP_HTTP_TIMEOUT"%string) 120;
  Ok {| HTTP_TOTAL_RETRIES := retries;
        HTTP_RETRY_BACKOFF := backoff;
        HTTP_TIMEOUT := tmo |}.
End Environment.

(** [PulpRetryAdapter.__init__]: the two keyword arguments it reads with
    [kwargs.get] are the optional arguments here. *)
Definition PulpRetryAdapter (cfg : Config)
    (total_retries : option Z) (backoff : option float) : Adapter :=
  {| max_retries :=
       {| total := default (HTTP_TOTAL_RETRIES cfg) total_retries;
          status_forcelist := [500; 502; 503; 504];
          method_whitelist :=
            ["HEAD"; "TRACE"; "GET"; "POST"; "PUT"; "OPTIONS"; "DELETE"]%string;
          backoff_factor := default (HTTP_RETRY_BACKOFF cfg) backoff |} |}.

(** ** Sessions, requests and the state the client threads *)

(** [requests.Session]: the attributes [_make_session] sets. A fresh session
    has neither certificate nor credentials; [mount] binds a prefix to an
    adapter. *)
Record Session := {
  cert : option string;
  session_auth : option (list string);
  adapters : gmap string Adapter
}.

Definition Session_new : Session :=
  {| cert := None; session_auth := None; adapters := ∅ |}.

Definition mount (prefix : string) (a : Adapter) (s : Session) : Session :=
  {| cert := cert s; session_auth := session_auth s;
     adapters := <[prefix := a]> (adapters s) |}.

Record HttpRequest := {
  method : string;
  req_url : string;
  json : option JSON;
  verify : bool;
  timeout : Z
}.

(** What the transport returns: the status code and the decoded body
    ([None] when [Response.json()] raises). *)
Record Response := {
  status_code : Z;
  body : option JSON
}.

Inductive Event : Type :=
| EDisableWarnings
| EHttp (worker : nat) (req : HttpRequest)
| ESleep (delay : float)
| ELog (fmt : string) (args : list string).

(** [local] is [self.local], a [threading.local()]: one optional [session]
    attribute per worker. *)
Record State := {
  local : gmap nat Session;
  trace : list Event
}.

Definition set_local (l : gmap nat Session) (st : State) : State :=
  {| local := l; trace := trace st |}.

Definition emit (e : Event) (st : State) : State :=
  {| local := local st; trace := trace st ++ [e] |}.

(** The state and exception monad of the client's operations. *)
Definition M (A : Type) : Type := State → Result A * State.

Definition ret {A} (a : A) : M A := fun st => (Ok a, st).
Definition raise {A} (e : Exn) : M A := fun st => (Raise e, st).
Definition lift {A} (r : Result A) : M A := fun st => (r, st).
Definition bind {A B} (m : M A) (k : A → M B) : M B :=
  fun st =>
    match m st with
    | (Ok a, st') => k a st'
    | (Raise e, st') => (Raise e, st')
    end.

Notation "'let*' x := m 'in' k" := (bind m (fun x => k))
  (at level 10, x pattern, m at level 100, k at level 200).

Fixpoint mapM {A B} (f : A → M B) (l : list A) : M (list B) :=
  match l with
  | [] => ret []
  | a :: l' => let* b := f a in let* bs := mapM f l' in ret (b :: bs)
  end.

Definition log_info (fmt : string) (args : list string) : M unit :=
  fun st => (Ok tt, emit (ELog fmt args) st).

(** ** JSON as Python sees it *)

Fixpoint assoc_get {V} (k : string) (kvs : list (string * V)) : option V :=
  match kvs with
  | [] => None
  | (k', v) :: rest => if String.eqb k k' then Some v else assoc_get k rest
  end.

(** [d[key]] for a string [key]: a [dict] looks the key up, anything else
    decoded from JSON does not take a string subscript. *)
Definition getitem (d : JSON) (key : string) : Result JSON :=
  match d with
  | JObj kvs =>
      match assoc_get key kvs with
      | Some v => Ok v
      | None => Raise (KeyError key)
      end
  | _ => Raise TypeError
  end.

Fixpoint chars (s : string) : list string :=
  match s with
  | EmptyString => []
  | String c s' => String c EmptyString :: chars s'
  end.

(** [for item in x]: a list yields its elements, a dict its keys, a string
    its characters; the other JSON values are not iterable. *)
Definition iterate (x : JSON) : Result (list JSON) :=
  match x with
  | JArr xs => Ok xs
  | JObj kvs => Ok (map (fun kv => JStr kv.1) kvs)
  | JStr s => Ok (map JStr (chars s))
  | _ => Raise TypeError
  end.

(** [Response.json()]. *)
Definition response_json (r : Response) : Result JSON :=
  match body r with
  | Some j => Ok j
  | None => Raise JSONDecodeError
  end.

Definition as_str (x : JSON) : Result string :=
  match x with JStr s => Ok s | _ => Raise TypeError end.

Definition as_int (x : JSON) : Result Z :=
  match x with JNum n => Ok n | _ => Raise TypeError end.

Definition as_str_list (x : JSON) : Result (list string) :=
  match x with JArr xs => rmap as_str xs | _ => Raise TypeError end.

Definition as_profiles (x : JSON) : Result (list (string * list string)) :=
  match x with
  | JObj kvs => rmap (fun kv => do names <- as_str_list kv.2; Ok (kv.1, names)) kvs
  | _ => Raise TypeError
  end.

(** Truth value of an optional string argument ([None] and the empty string
    are false). *)
Definition truthy (o : option string) : bool :=
  match o with
  | Some s => negb (String.eqb s "")
  | None => false
  end.

(** ** Unit model

    The fields carry the types of the data model (names, streams, contexts,
    architectures and file names are strings, a module version is an
    integer, the profiles of a module-defaults unit map a stream to a list of
    profile names). Fields the client only passes along ([packages] and
    [profiles] of a module) stay JSON. The source stores whatever the
    metadata holds; here the searches read each field at its type and report
    metadata of another JSON type as [TypeError], once the lookups of the
    record are done. The three classes share attribute names in the source;
    the records prefix them. *)

Record Package := {
  pkg_name : string;
  pkg_filename : string;
  pkg_sourcerpm : option string;
  pkg_is_modular : bool;
  pkg_version : string;
  pkg_release : string;
  pkg_epoch : string;
  pkg_associate_source_repo_id : string
}.

Record ModuleUnit := {
  mod_name : string;
  mod_stream : string;
  mod_version : Z;
  mod_context : string;
  mod_arch : string;
  mod_packages : JSON;
  mod_profiles : JSON;
  mod_associate_source_repo_id : string
}.

Record ModuleDefaults := {
  md_name : string;
  md_stream : string;
  md_profiles : list (string * list string);
  md_associate_source_repo_id : string
}.

(** A unit handed to the query builder is an instance of one of the three
    classes; the builder reads attributes by name. *)
Inductive Unit : Type :=
| UPackage (p : Package)
| UModule (m : ModuleUnit)
| UModuleDefaults (d : ModuleDefaults).

Definition opt_str (o : option string) : JSON :=
  match o with Some s => JStr s | None => JNull end.

Definition profiles_json (ps : list (string * list string)) : JSON :=
  JObj (map (fun kv => (kv.1, JArr (map JStr kv.2))) ps).

Definition Package_attrs (p : Package) : list (string * JSON) :=
  [("name", JStr (pkg_name p)); ("filename", JStr (pkg_filename p));
   ("sourcerpm", opt_str (pkg_sourcerpm p)); ("is_modular", JBool (pkg_is_modular p));
   ("version", JStr (pkg_version p)); ("release", JStr (pkg_release p));
   ("epoch", JStr (pkg_epoch p));
   ("associate_source_repo_id", JStr (pkg_associate_source_repo_id p))]%string.

Definition Module_attrs (m : ModuleUnit) : list (string * JSON) :=
  [("name", JStr (mod_name m)); ("stream", JStr (mod_stream m));
   ("version", JNum (mod_version m)); ("context", JStr (mod_context m));
   ("arch", JStr (mod_arch m)); ("packages", mod_packages m);
   ("profiles", mod_profiles m);
   ("associate_source_repo_id", JStr (mod_associate_source_repo_id m))]%string.

Definition ModuleDefaults_attrs (d : ModuleDefaults) : list (string * JSON) :=
  [("name", JStr (md_name d)); ("stream", JStr (md_stream d));
   ("profiles", profiles_json (md_profiles d));
   ("associate_source_repo_id", JStr (md_associate_source_repo_id d))]%string.

(** [unit.attr]: [AttributeError] when the class has no such attribute. *)
Definition getattr (u : Unit) (attr : string) : Result JSON :=
  let attrs :=
    match u with
    | UPackage p => Package_attrs p
    | UModule m => Module_attrs m
    | UModuleDefaults d => ModuleDefaults_attrs d
    end in
  match assoc_get attr attrs with
  | Some v => Ok v
  | None => Raise (AttributeError attr)
  end.

(** [sorted] on strings: insertion into an ordered list, by the order of
    the characters' codes. *)
Fixpoint insert_sorted (x : string) (l : list string) : list string :=
  match l with
  | [] => [x]
  | y :: l' => if String.leb x y then x :: l else y :: insert_sorted x l'
  end.

Definition sorted (l : list string) : list string := foldr insert_sorted [] l.

Definition string_le (s1 s2 : string) : Prop := String.leb s1 s2 = true.

(** [sep.join(parts)]. *)
Fixpoint join (sep : string) (parts : list string) : string :=
  match parts with
  | [] => ""
  | [p] => p
  | p :: rest => p +:+ sep +:+ join sep rest
  end.

(** [Module.nsvca]; [str(self.version)] is the decimal numeral. *)
Definition nsvca (m : ModuleUnit) : string :=
  join ":" [mod_name m; mod_stream m; pretty (mod_version m); mod_context m; mod_arch m].

(** [ModuleDefaults.name_profiles]. [profiles] is a dict: iterating it
    yields its keys, and [profiles[key]] is the value stored under a key. *)
Definition name_profiles (d : ModuleDefaults) : string :=
  fold_left
    (fun result key =>
       result +:+ ":[" +:+ key +:+ ":" +:+
       join "," (sorted (default [] (assoc_get key (md_profiles d)))) +:+ "]")
    (sorted (map fst (md_profiles d)))
    (md_name d).

(** [str(unit)]. *)
Definition unit_str (u : Unit) : string :=
  match u with
  | UPackage p => pkg_filename p
  | UModule m => nsvca m
  | UModuleDefaults d => md_name d
  end.

(** Hashable JSON values, as keys of a [dict] or members of a [set]. Python
    identifies [True] with [1] and [False] with [0]; lists and dicts are not
    hashable. *)
Inductive Key : Type :=
| KNone
| KInt (n : Z)
| KStr (s : string).

#[global] Instance Key_eq_dec : EqDecision Key.
Proof. solve_decision. Defined.

#[global] Instance Key_countable : Countable Key.
Proof.
  refine (inj_countable'
            (fun k => match k with
                      | KNone => inl ()
                      | KInt n => inr (inl n)
                      | KStr s => inr (inr s)
                      end)
            (fun x => match x with
                      | inl _ => KNone
                      | inr (inl n) => KInt n
                      | inr (inr s) => KStr s
                      end) _).
  by intros [].
Defined.

Definition to_key (x : JSON) : Result Key :=
  match x with
  | JNull => Ok KNone
  | JBool b => Ok (KInt (if b then 1 else 0))
  | JNum n => Ok (KInt n)
  | JStr s => Ok (KStr s)
  | JArr _ | JObj _ => Raise TypeError
  end.

(** [tasks -= set([k])] on a set of strings. *)
Definition discard (k : Key) (tasks : gset string) : gset string :=
  match k with
  | KStr s => tasks ∖ {[s]}
  | _ => tasks
  end.

(** ** The client *)

Record Pulp := {
  hostname : string;
  auth : list string;
  scheme : string;
  base_url : string;
  insecure : bool
}.

Definition PULP_API : string := "/pulp/api/v2/".

(** What lies outside the client: library functions, the service and the
    module constants. *)
Class Platform := {
  (** [urljoin] of urllib. *)
  urljoin : string → string → string;
  (** The service behind the transport: given what the client did so far and
      the request, the response, or the exception the transport raises. *)
  server : list Event → HttpRequest → Result Response;
  (** The status codes at which [Response.raise_for_status] raises. *)
  raises_for_status : Z → bool;
  (** The order in which a [set] of task ids is iterated. *)
  set_order : gset string → list string;
  (** [ubipop._utils.split_filename]: name, version, release, epoch, arch. *)
  split_filename : string → Result (string * string * string * string * string);
  (** The module constants [HTTP_TOTAL_RETRIES], [HTTP_RETRY_BACKOFF] and
      [HTTP_TIMEOUT]. *)
  cfg : Config
}.

Section Client.
Context `{!Platform}.

(** [Pulp.__init__]: the client and the state it starts in. *)
Definition Pulp_init (hostname : string) (auth : list string) (insecure : bool)
    : Pulp * State :=
  ({| hostname := hostname; auth := auth; scheme := "https://";
      base_url := urljoin ("https://" +:+ hostname) PULP_API;
      insecure := insecure |},
   {| local := ∅; trace := if insecure then [EDisableWarnings] else [] |}).

Variable self : Pulp.

(** The session [_make_session] builds (lines 62-70). *)
Definition new_session : Session :=
  let adapter := PulpRetryAdapter cfg None None in
  let session := mount "https://" adapter (mount "http://" adapter Session_new) in
  match auth self with
  | [c] => {| cert := Some c; session_auth := session_auth session;
              adapters := adapters session |}
  | _ => {| cert := cert session; session_auth := Some (auth self);
            adapters := adapters session |}
  end.

(** The state once worker [w] has its session: [_make_session] runs only
    when the worker has none ([hasattr] is false). *)
Definition with_session (w : nat) (st : State) : State :=
  match local st !! w with
  | Some _ => st
  | None => set_local (<[w := new_session]> (local st)) st
  end.

Definition _make_session (w : nat) : M unit :=
  fun st => (Ok tt, set_local (<[w := new_session]> (local st)) st).

Definition send (w : nat) (req : HttpRequest) : M Response :=
  fun st => (server (trace st) req, emit (EHttp w req) st).

(** The request [session.post(req_url, json=data, verify=..., timeout=...)]
    sends, and the one [session.get(req_url, verify=..., timeout=...)] sends. *)
Definition post_request (url : string) (data : option JSON) : HttpRequest :=
  {| method := "POST"; req_url := urljoin (base_url self) url; json := data;
     verify := negb (insecure self); timeout := HTTP_TIMEOUT cfg |}.

Definition get_request (url : string) : HttpRequest :=
  {| method := "GET"; req_url := urljoin (base_url self) url; json := None;
     verify := negb (insecure self); timeout := HTTP_TIMEOUT cfg |}.

Definition do_request (w : nat) (req_type url : string) (data : option JSON)
    : M (option Response) :=
  let* _ := (fun st => match local st !! w with
                       | Some _ => ret tt st
                       | None => _make_session w st
                       end) in
  if String.eqb req_type "post" then
    let* r := send w (post_request url data) in
    ret (Some r)
  else if String.eqb req_type "get" then
    let* r := send w (get_request url) in
    ret (Some r)
  else ret None.

Definition raise_for_status (r : Response) : Result unit :=
  if raises_for_status (status_code r) then Raise (HTTPError (status_code r))
  else Ok tt.

(** A method call on what [do_request] returned: [None] has no methods. *)
Definition deref (name : string) (o : option Response) : Result Response :=
  match o with
  | Some r => Ok r
  | None => Raise (AttributeError name)
  end.

(** [Package.__init__]. *)
Definition Package_init (name filename src_repo_id : string)
    (sourcerpm_filename : option string) (is_modular : bool) : Result Package :=
  do parts <- split_filename filename;
  let '(_, version, release, epoch, _) := parts in
  Ok {| pkg_name := name; pkg_filename := filename;
        pkg_sourcerpm := sourcerpm_filename; pkg_is_modular := is_modular;
        pkg_version := version; pkg_release := release; pkg_epoch := epoch;
        pkg_associate_source_repo_id := src_repo_id |}.

Definition search_url (repo_id : string) : string :=
  "repositories/" +:+ repo_id +:+ "/search/units/".

(** The criteria of [search_modules] and [search_module_defaults]
    (lines 131-133 and 158-160). *)
Definition name_stream_criteria (type_id : string) (name stream : option string)
    : JSON :=
  JObj ([("type_ids", JArr [JStr type_id])] ++
        (if truthy name && truthy stream
         then [("filters",
                JObj [("unit", JObj [("name", opt_str name);
                                     ("stream", opt_str stream)])])]
         else [])).

Definition search_rpms (w : nat) (repo_id : string) (name arch : option string)
    (name_globbing : bool) (filename : option string) : M (list Package) :=
  let url := search_url repo_id in
  let unit :=
    (if truthy name
     then [("name", if name_globbing
                    then JObj [("$regex", JStr (default "" name +:+ ".*"))]
                    else opt_str name)]
     else []) ++
    (if truthy arch then [("arch", opt_str arch)] else []) ++
    (if truthy filename then [("filename", opt_str filename)] else []) in
  let criteria :=
    JObj [("type_ids", JArr [JStr "rpm"; JStr "srpm"]);
          ("filters", JObj [("unit", JObj unit)])] in
  let payload := JObj [("criteria", criteria)] in
  let* ret := do_request w "post" url (Some payload) in
  lift (do r <- deref "raise_for_status" ret;
        do _ <- raise_for_status r;
        do items <- rbind (response_json r) iterate;
        rmap (fun item =>
                do metadata <- getitem item "metadata";
                do name <- getitem metadata "name";
                do filename <- getitem metadata "filename";
                let sourcerpm :=
                  match metadata with
                  | JObj kvs => default JNull (assoc_get "sourcerpm" kvs)
                  | _ => JNull
                  end in
                do name <- as_str name;
                do filename <- as_str filename;
                do sourcerpm <- match sourcerpm with
                                | JNull => Ok None
                                | x => do s <- as_str x; Ok (Some s)
                                end;
                Package_init name filename repo_id sourcerpm false)
             items).

Definition search_modules (w : nat) (repo_id : string) (name stream : option string)
    : M (list ModuleUnit) :=
  let url := search_url repo_id in
  let payload := JObj [("criteria", name_stream_criteria "modulemd" name stream)] in
  let* ret := do_request w "post" url (Some payload) in
  lift (do r <- deref "raise_for_status" ret;
        do _ <- raise_for_status r;
        do items <- rbind (response_json r) iterate;
        rmap (fun item =>
                do metadata <- getitem item "metadata";
                do name <- getitem metadata "name";
                do stream <- getitem metadata "stream";
                do version <- getitem metadata "version";
                do context <- getitem metadata "context";
                do arch <- getitem metadata "arch";
                do artifacts <- getitem metadata "artifacts";
                do profiles <- getitem metadata "profiles";
                do name <- as_str name;
                do stream <- as_str stream;
                do version <- as_int version;
                do context <- as_str context;
                do arch <- as_str arch;
                Ok {| mod_name := name; mod_stream := stream;
                      mod_version := version; mod_context := context;
                      mod_arch := arch; mod_packages := artifacts;
                      mod_profiles := profiles;
                      mod_associate_source_repo_id := repo_id |})
             items).

Definition search_module_defaults (w : nat) (repo_id : string)
    (name stream : option string) : M (list ModuleDefaults) :=
  let url := search_url repo_id in
  let payload :=
    JObj [("criteria", name_stream_criteria "modulemd_defaults" name stream)] in
  let* ret := do_request w "post" url (Some payload) in
  lift (do r <- deref "raise_for_status" ret;
        do _ <- raise_for_status r;
        do items <- rbind (response_json r) iterate;
        rmap (fun item =>
                do metadata <- getitem item "metadata";
                do name <- getitem metadata "name";
                do stream <- getitem metadata "stream";
                do profiles <- getitem metadata "profiles";
                do name <- as_str name;
                do stream <- as_str stream;
                do profiles <- as_profiles profiles;
                Ok {| md_name := name; md_stream := stream;
                      md_profiles := profiles;
                      md_associate_source_repo_id := repo_id |})
             items).

(** ** Query builder *)

Definition _modules_query (modules : list Unit) : Result (list JSON) :=
  rmap (fun module =>
          do name <- getattr module "name";
          do context <- getattr module "context";
          do version <- getattr module "version";
          do stream <- getattr module "stream";
          do arch <- getattr module "arch";
          Ok (JObj [("$and",
                     JArr [JObj [("name", name)];
                           JObj [("context", context)];
                           JObj [("version", version)];
                           JObj [("stream", stream)];
                           JObj [("arch", arch)]])]))
       modules.

Definition _module_defaults_query (module_defaults : list Unit) : Result (list JSON) :=
  rmap (fun md_d =>
          do name <- getattr md_d "name";
          do stream <- getattr md_d "stream";
          Ok (JObj [("$and", JArr [JObj [("name", name)]; JObj [("stream", stream)]])]))
       module_defaults.

Definition _rpms_query (rpms : list Unit) : Result (list JSON) :=
  rmap (fun rpm =>
          do filename <- getattr rpm "filename";
          Ok (JObj [("filename", filename)]))
       rpms.

(** [type_ids] is a tuple of strings; [x in type_ids] is membership. *)
Definition _get_query_list (type_ids : list string) (units : list Unit)
    : Result (list JSON) :=
  if bool_decide ("modulemd" ∈ type_ids) then _modules_query units
  else if bool_decide ("modulemd_defaults" ∈ type_ids) then _module_defaults_query units
  else if bool_decide ("rpm" ∈ type_ids) || bool_decide ("srpm" ∈ type_ids)
  then _rpms_query units
  else Raise UnsupportedTypeId.

(** The [criteria] document of associate and unassociate. *)
Definition unit_criteria (type_ids : list string) (query_list : list JSON) : JSON :=
  JObj [("type_ids", JArr (map JStr type_ids));
        ("filters", JObj [("unit", JObj [("$or", JArr query_list)])])].

(** [[task["task_id"] for task in ret["spawned_tasks"]]]. *)
Definition spawned_task_ids (ret_json : JSON) : Result (list JSON) :=
  do spawned <- getitem ret_json "spawned_tasks";
  do tasks <- iterate spawned;
  rmap (fun task => getitem task "task_id") tasks.

Definition unassociate_units (w : nat) (repo_id : string) (units : list Unit)
    (type_ids : list string) : M (list JSON) :=
  let url := "repositories/" +:+ repo_id +:+ "/actions/unassociate/" in
  let* query_list := lift (_get_query_list type_ids units) in
  let data := JObj [("criteria", unit_criteria type_ids query_list)] in
  let* _ := mapM (fun unit =>
                    log_info "Unassociating %s from %s" [unit_str unit; repo_id])
                 units in
  let* ret := do_request w "post" url (Some data) in
  lift (do r <- deref "json" ret;
        do ret_json <- response_json r;
        spawned_task_ids ret_json).

Definition associate_units (w : nat) (src_repo_id dest_repo_id : string)
    (units : list Unit) (type_ids : list string) : M (list JSON) :=
  let url := "repositories/" +:+ dest_repo_id +:+ "/actions/associate/" in
  let* query_list := lift (_get_query_list type_ids units) in
  let data := JObj [("source_repo_id", JStr src_repo_id);
                    ("criteria", unit_criteria type_ids query_list)] in
  let* _ := mapM (fun unit =>
                    log_info "Associating %s from %s to %s"
                             [unit_str unit; src_repo_id; dest_repo_id])
                 units in
  let* ret := do_request w "post" url (Some data) in
  lift (do r <- deref "raise_for_status" ret;
        do _ <- raise_for_status r;
        do ret_json <- response_json r;
        spawned_task_ids ret_json).

Definition associate_modules (w : nat) (src dst : string) (modules : list ModuleUnit) :=
  associate_units w src dst (map UModule modules) ["modulemd"].

Definition associate_module_defaults (w : nat) (src dst : string)
    (module_defaults : list ModuleDefaults) :=
  associate_units w src dst (map UModuleDefaults module_defaults) ["modulemd_defaults"].

Definition associate_packages (w : nat) (src dst : string) (rpms : list Package) :=
  associate_units w src dst (map UPackage rpms) ["rpm"; "srpm"].

Definition unassociate_modules (w : nat) (repo : string) (modules : list ModuleUnit) :=
  unassociate_units w repo (map UModule modules) ["modulemd"].

Definition unassociate_module_defaults (w : nat) (repo : string)
    (module_defaults : list ModuleDefaults) :=
  unassociate_units w repo (map UModuleDefaults module_defaults) ["modulemd_defaults"].

Definition unassociate_packages (w : nat) (repo : string) (rpms : list Package) :=
  unassociate_units w repo (map UPackage rpms) ["rpm"; "srpm"].

(** ** Task tracker *)

Definition sleep (delay : float) : M unit :=
  fun st => (Ok tt, emit (ESleep delay) st).

Definition task_path (task_id : string) : string := "tasks/" +:+ task_id +:+ "/".

Definition search_tasks (w : nat) (task_ids : list string) : M (list JSON) :=
  mapM (fun task_id =>
          let* ret := do_request w "get" (task_path task_id) None in
          lift (do r <- deref "json" ret; response_json r))
       task_ids.

(** [state in ("finished", "error", "canceled")]. *)
Definition is_terminal (state : JSON) : bool :=
  match state with
  | JStr s => bool_decide (s ∈ ["finished"; "error"; "canceled"])
  | _ => false
  end.

(** The body of [for status in statuses] (lines 185-187). *)
Definition record_status (acc : gset string * gmap Key JSON) (status : JSON)
    : Result (gset string * gmap Key JSON) :=
  let '(_tasks, results) := acc in
  do state <- getitem status "state";
  do _tasks <- (if is_terminal state
                then do task_id <- getitem status "task_id";
                     do k <- to_key task_id;
                     Ok (discard k _tasks)
                else Ok _tasks);
  do task_id <- getitem status "task_id";
  do k <- to_key task_id;
  Ok (_tasks, <[k := status]> results).

Fixpoint record_statuses (acc : gset string * gmap Key JSON) (statuses : list JSON)
    : Result (gset string * gmap Key JSON) :=
  match statuses with
  | [] => Ok acc
  | status :: rest => do acc' <- record_status acc status; record_statuses acc' rest
  end.

(** One pass through the body of [while _tasks] (lines 183-189). *)
Definition wait_round (w : nat) (delay : float)
    (acc : gset string * gmap Key JSON) : M (gset string * gmap Key JSON) :=
  let* statuses := search_tasks w (set_order acc.1) in
  let* acc' := lift (record_statuses acc statuses) in
  let* _ := (if decide (acc'.1 = ∅) then ret tt else sleep delay) in
  ret acc'.

(** The loop of [wait_for_tasks]; [fuel] bounds the number of times the loop
    condition is evaluated, [None] is a run that needs more. *)
Fixpoint wait_loop (fuel : nat) (w : nat) (delay : float)
    (acc : gset string * gmap Key JSON) (st : State)
    : option (Result (gmap Key JSON) * State) :=
  match fuel with
  | O => None
  | S fuel' =>
      if decide (acc.1 = ∅) then Some (Ok acc.2, st)
      else match wait_round w delay acc st with
           | (Ok acc', st') => wait_loop fuel' w delay acc' st'
           | (Raise e, st') => Some (Raise e, st')
           end
  end.

Definition wait_for_tasks (fuel : nat) (w : nat) (task_id_list : list string)
    (delay : float) (st : State) : option (Result (gmap Key JSON) * State) :=
  wait_loop fuel w delay (list_to_set task_id_list, ∅) st.

(** ** Vocabulary of the properties *)

(** The state after one log record per unit. *)
Definition logged (fmt : string) (args : Unit → list string) (units : list Unit)
    (st : State) : State :=
  {| local := local st;
     trace := trace st ++ map (fun unit => ELog fmt (args unit)) units |}.

(** The five-field conjunction of a module. *)
Definition module_conjunction (m : ModuleUnit) : JSON :=
  JObj [("$and", JArr [JObj [("name", JStr (mod_name m))];
                       JObj [("context", JStr (mod_context m))];
                       JObj [("version", JNum (mod_version m))];
                       JObj [("stream", JStr (mod_stream m))];
                       JObj [("arch", JStr (mod_arch m))]])].

(** The status request for a task. *)
Definition task_request (task_id : string) : HttpRequest :=
  get_request (task_path task_id).

(** The number of GET requests to [url] in a trace. *)
Definition is_poll (url : string) (e : Event) : bool :=
  match e with
  | EHttp _ req => String.eqb (method req) "GET" && String.eqb (req_url req) url
  | _ => false
  end.

Definition polls (url : string) (tr : list Event) : nat :=
  length (filter (fun e => is_poll url e = true) tr).

(** A status whose state is one of "finished", "error", "canceled", and one
    whose state is something else. *)
Definition terminal_status (status : JSON) : Prop :=
  ∃ state, getitem status "state" = Ok state ∧ is_terminal state = true.

Definition running_status (status : JSON) : Prop :=
  ∃ state, getitem status "state" = Ok state ∧ is_terminal state = false.

(** The successive statuses [poll 0], [poll 1], ... of task [t] reach a
    terminal state at index [k] and not before, each status up to there
    carrying the id of the task. *)
Definition settles (t : string) (poll : nat → JSON) (k : nat) : Prop :=
  terminal_status (poll k) ∧
  (∀ j, (j < k)%nat → running_status (poll j)) ∧
  (∀ j, (j ≤ k)%nat → getitem (poll j) "task_id" = Ok (JStr t)).

(** The status requests of worker [w] for the ids of [l], in order. *)
Definition gets (w : nat) (l : list string) : list Event :=
  map (fun t => EHttp w (task_request t)) l.

(** Whether the loop body finds the state of a status terminal. *)
Definition term_b (status : JSON) : bool :=
  match getitem status "state" with
  | Ok state => is_terminal state
  | Raise _ => false
  end.

(** The loop of [wait_for_tasks] before round [n], when the status of task
    [t] at its [k]-th request is [poll t k]: a pending id was requested [n]
    times and never found terminal; a given id that is no longer pending
    settled at some [k], was requested [k + 1] times and is mapped to its
    status at [k]; the results hold given ids only. [tr] is the trace since
    the call. *)
Definition tracker_inv (ids : list string) (poll : string → nat → JSON)
    (n : nat) (P : gset string) (R : gmap Key JSON) (tr : list Event) : Prop :=
  (∀ t, t ∈ P → t ∈ ids ∧ polls (req_url (task_request t)) tr = n ∧
                 ∀ j, (j < n)%nat → running_status (poll t j)) ∧
  (∀ t, t ∈ ids → t ∉ P →
        ∃ k, settles t (poll t) k ∧ R !! KStr t = Some (poll t k) ∧
             polls (req_url (task_request t)) tr = S k) ∧
  (∀ key, key ∈ dom R → ∃ t, t ∈ ids ∧ key = KStr t).

(** Completed passes through the loop body, each entered with a pending
    id. *)
Inductive rounds (w : nat) (delay : float)
    : gset string * gmap Key JSON → State →
      gset string * gmap Key JSON → State → Prop :=
| rounds_done acc st : rounds w delay acc st acc st
| rounds_more acc st acc1 st1 acc2 st2 :
    acc.1 ≠ ∅ →
    wait_round w delay acc st = (Ok acc1, st1) →
    rounds w delay acc1 st1 acc2 st2 →
    rounds w delay acc st acc2 st2.

(** The states a client can be in: the one [__init__] leaves, and those that
    requests, log records and sleeps lead to. *)
Inductive reachable : State → Prop :=
| reach_init :
    reachable {| local := ∅;
                 trace := if insecure self then [EDisableWarnings] else [] |}
| reach_request st w req_type url data :
    reachable st → reachable (do_request w req_type url data st).2
| reach_emit st e :
    reachable st → reachable (emit e st).

End Client.

(** ** Concrete services and units, for the examples *)

Definition example_config : Config :=
  {| HTTP_TOTAL_RETRIES := 10; HTTP_RETRY_BACKOFF := 1%float; HTTP_TIMEOUT := 120 |}.

(** A platform around a given service: [urljoin] appends a relative path to
    the base, [raise_for_status] raises on 4xx and 5xx, a set is iterated in
    the order of [elements]. *)
Definition example_platform (srv : list Event → HttpRequest → Result Response)
    : Platform :=
  {| urljoin := fun base url => base +:+ url;
     server := srv;
     raises_for_status := fun code => (400 <=? code) && (code <? 600);
     set_order := elements;
     split_filename := fun _ => Ok ("", "", "", "", "");
     cfg := example_config |}.

Definition example_pulp : Pulp :=
  {| hostname := "pulp.example.com"; auth := ["user"; "pass"]; scheme := "https://";
     base_url := "https://pulp.example.com/pulp/api/v2/"; insecure := false |}.

Definition empty_state : State := {| local := ∅; trace := [] |}.

Definition ruby : ModuleUnit :=
  {| mod_name := "ruby"; mod_stream := "2.5"; mod_version := 20190101;
     mod_context := "abcd1234"; mod_arch := "x86_64";
     mod_packages := JArr []; mod_profiles := JObj [];
     mod_associate_source_repo_id := "repo" |}.

Definition ruby_metadata : JSON :=
  JObj [("metadata",
         JObj [("name", JStr "ruby"); ("stream", JStr "2.5");
               ("version", JNum 20190101); ("context", JStr "abcd1234");
               ("arch", JStr "x86_64"); ("artifacts", JArr []);
               ("profiles", JObj [])])].

Definition ruby_defaults : ModuleDefaults :=
  {| md_name := "ruby"; md_stream := "2.5";
     md_profiles := [("2.5", ["unique"; "common"]); ("1.0", ["common"])];
     md_associate_source_repo_id := "repo" |}.

(** A service that answers every request with the same response. *)
Definition constant_server (r : Response) : list Event → HttpRequest → Result Response :=
  fun _ _ => Ok r.

(** The statuses of the two tasks of the example: "t1" is running at its
    first request and finished from the second on, "t2" is finished. *)
Definition example_poll (t : string) (k : nat) : JSON :=
  JObj [("task_id", JStr t);
        ("state", JStr (if String.eqb t "t1"
                        then match k with O => "running" | S _ => "finished" end
                        else "finished"))].

(** A service that answers the status request of a task by its status at
    the number of requests already made for it. *)
Definition example_task_server : list Event → HttpRequest → Result Response :=
  fun tr req =>
    let t := if String.eqb (req_url req)
                  "https://pulp.example.com/pulp/api/v2/tasks/t1/"
             then "t1" else "t2" in
    Ok {| status_code := 200;
          body := Some (example_poll t (polls (req_url req) tr)) |}.

(** A service on which task "t1" runs forever. *)
Definition stuck_task_server : list Event → HttpRequest → Result Response :=
  fun _ _ =>
    Ok {| status_code := 200;
          body := Some (JObj [("task_id", JStr "t1"); ("state", JStr "running")]) |}.

(** A service that answers every search with the module ruby. *)
Definition ruby_platform : Platform :=
  example_platform
    (constant_server {| status_code := 200; body := Some (JArr [ruby_metadata]) |}).

(** A response with a server error status and a well-formed task report. *)
Definition failed_response : Response :=
  {| status_code := 500;
     body := Some (JObj [("spawned_tasks", JArr [JObj [("task_id", JStr "t1")]])]) |}.

(** The unit of [ruby_defaults] with its profiles stored in the other
    order. *)
Definition ruby_defaults_reordered : ModuleDefaults :=
  {| md_name := "ruby"; md_stream := "2.5";
     md_profiles := [("1.0", ["common"]); ("2.5", ["unique"; "common"])];
     md_associate_source_repo_id := "repo" |}.

(** An environment that sets the number of retries, and an [int] that reads
    the numeral it uses. *)
Definition example_environ : gmap string string :=
  {[ "UBIPOP_HTTP_TOTAL_RETRIES" := "3" ]}.

Definition example_int (s : string) : option Z :=
  if String.eqb s "3" then Some 3 else None.

(** ** Vocabulary of the further properties *)

Definition is_package (u : Unit) : bool :=
  match u with UPackage _ => true | _ => false end.

Definition is_module (u : Unit) : bool :=
  match u with UModule _ => true | _ => false end.

(** What an operation run by worker [w] may add to the trace: log records,
    sleeps, and GET or POST requests of that worker under the base URL, with
    the client's [verify] and the module's timeout. *)
Definition client_event `{!Platform} (self : Pulp) (w : nat) (e : Event) : Prop :=
  match e with
  | EHttp w' req =>
      w' = w ∧ (method req = "GET" ∨ method req = "POST") ∧
      verify req = negb (insecure self) ∧ timeout req = HTTP_TIMEOUT cfg ∧
      ∃ url, req_url req = urljoin (base_url self) url
  | ESleep _ | ELog _ _ => True
  | EDisableWarnings => False
  end.

(** An operation that only appends events of the client's kinds. *)
Definition extends `{!Platform} (self : Pulp) (w : nat) {A} (m : M A) : Prop :=
  ∀ st, ∃ tr, trace (m st).2 = trace st ++ tr ∧ Forall (client_event self w) tr.

(** The same platform in front of another service. *)
Definition with_server (P : Platform)
    (srv : list Event → HttpRequest → Result Response) : Platform :=
  {| urljoin := @urljoin P; server := srv;
     raises_for_status := @raises_for_status P; set_order := @set_order P;
     split_filename := @split_filename P; cfg := @cfg P |}.

(** A successful response that reports one spawned task. *)
Definition spawned_response : Response :=
  {| status_code := 202;
     body := Some (JObj [("spawned_tasks", JArr [JObj [("task_id", JStr "t1")]])]) |}.

(** A transport that fails on every request. *)
Definition failing_server : list Event → HttpRequest → Result Response :=
  fun _ _ => Raise TransportError.

(** The example service, answering with status 500 instead of 200. *)
Definition example_task_server_500 : list Event → HttpRequest → Result Response :=
  fun tr req =>
    do r <- example_task_server tr req;
    Ok {| status_code := 500; body := body r |}.

(** The states a client goes through: the one [__init__] leaves, and those
    its operations, run by any worker, lead to (for [wait_for_tasks], the
    runs that end). *)
Inductive client_states `{!Platform} (self : Pulp) : State → Prop :=
| cs_init :
    client_states self (Pulp_init (hostname self) (auth self) (insecure self)).2
| cs_do_request st w req_type url data :
    client_states self st →
    client_states self (do_request self w req_type url data st).2
| cs_search_rpms st w repo name arch name_globbing filename :
    client_states self st →
    client_states self (search_rpms self w repo name arch name_globbing filename st).2
| cs_search_modules st w repo name stream :
    client_states self st →
    client_states self (search_modules self w repo name stream st).2
| cs_search_module_defaults st w repo name stream :
    client_states self st →
    client_states self (search_module_defaults self w repo name stream st).2
| cs_associate_units st w src dst units type_ids :
    client_states self st →
    client_states self (associate_units self w src dst units type_ids st).2
| cs_unassociate_units st w repo units type_ids :
    client_states self st →
    client_states self (unassociate_units self w repo units type_ids st).2
| cs_wait_for_tasks st fuel w task_id_list delay r st' :
    client_states self st →
    wait_for_tasks self fuel w task_id_list delay st = Some (r, st') →
    client_states self st'.

(** A response whose body is a task report without a state. *)
Definition stateless_response : Response :=
  {| status_code := 200; body := Some (JObj [("task_id", JStr "t1")]) |}.

(** A response whose body lists a record without metadata. *)
Definition malformed_response : Response :=
  {| status_code := 200; body := Some (JArr [ruby_metadata; JObj []]) |}.

(** * Properties *)

(** ** Retry configuration and the transport *)

Section TransportFacts.
Context `{!Platform}.
Variable self : Pulp.

Lemma ensure_session_eq (w : nat) (st : State) :
  (match local st !! w with
   | Some _ => ret tt st
   | None => _make_session self w st
   end) = (Ok tt, with_session self w st).
Proof. unfold with_session, _make_session, ret. by destruct (local st !! w). Qed.

Lemma do_request_post (w : nat) (url : string) (data : option JSON) (st : State) :
  do_request self w "post" url data st =
  (do r <- server (trace st) (post_request self url data); Ok (Some r),
   emit (EHttp w (post_request self url data)) (with_session self w st)).
Proof.
  unfold do_request, bind. rewrite ensure_session_eq. simpl.
  unfold send.
  replace (trace (with_session self w st)) with (trace st)
    by (unfold with_session; by destruct (local st !! w)).
  by destruct (server _ _).
Qed.

Lemma do_request_get (w : nat) (url : string) (data : option JSON) (st : State) :
  do_request self w "get" url data st =
  (do r <- server (trace st) (get_request self url); Ok (Some r),
   emit (EHttp w (get_request self url)) (with_session self w st)).
Proof.
  unfold do_request, bind. rewrite ensure_session_eq. simpl.
  unfold send.
  replace (trace (with_session self w st)) with (trace st)
    by (unfold with_session; by destruct (local st !! w)).
  by destruct (server _ _).
Qed.

Lemma do_request_other (w : nat) (req_type url : string) (data : option JSON)
    (st : State) :
  req_type ≠ "post" → req_type ≠ "get" →
  do_request self w req_type url data st = (Ok None, with_session self w st).
Proof.
  intros Hp Hg. unfold do_request, bind. rewrite ensure_session_eq.
  apply String.eqb_neq in Hp, Hg. by rewrite Hp, Hg.
Qed.

Lemma trace_with_session (w : nat) (st : State) :
  trace (with_session self w st) = trace st.
Proof. unfold with_session. by destruct (local st !! w). Qed.

(** C8. A request type other than "post" and "get" makes [do_request] send
    nothing and return [None] without raising; "post" sends one POST request
    that carries the data as its JSON body, "get" sends one GET request
    without a body. *)
Theorem do_request_by_verb (w : nat) (req_type url : string) (data : option JSON)
    (st : State) :
  (req_type ≠ "post" → req_type ≠ "get" →
   (do_request self w req_type url data st).1 = Ok None ∧
   trace (do_request self w req_type url data st).2 = trace st) ∧
  (req_type = "post" →
   ∃ req, method req = "POST" ∧ json req = data ∧
          req_url req = urljoin (base_url self) url ∧
          (do_request self w req_type url data st).1 =
            (do r <- server (trace st) req; Ok (Some r)) ∧
          trace (do_request self w req_type url data st).2 =
            trace st ++ [EHttp w req]) ∧
  (req_type = "get" →
   ∃ req, method req = "GET" ∧ json req = None ∧
          req_url req = urljoin (base_url self) url ∧
          (do_request self w req_type url data st).1 =
            (do r <- server (trace st) req; Ok (Some r)) ∧
          trace (do_request self w req_type url data st).2 =
            trace st ++ [EHttp w req]).
Proof.
  split; [|split].
  - intros Hp Hg. rewrite do_request_other by done. simpl.
    by rewrite trace_with_session.
  - intros ->. exists (post_request self url data). rewrite do_request_post. simpl.
    by rewrite trace_with_session.
  - intros ->. exists (get_request self url). rewrite do_request_get. simpl.
    by rewrite trace_with_session.
Qed.

(** The session of a worker is created by its first request and never
    replaced. *)
Lemma do_request_local (w : nat) (req_type url : string) (data : option JSON)
    (st : State) :
  local (do_request self w req_type url data st).2 = local (with_session self w st).
Proof.
  destruct (decide (req_type = "post")) as [->|Hp].
  { by rewrite do_request_post. }
  destruct (decide (req_type = "get")) as [->|Hg].
  { by rewrite do_request_get. }
  by rewrite do_request_other.
Qed.

Lemma with_session_lookup (w w' : nat) (st : State) (s : Session) :
  local (with_session self w st) !! w' = Some s →
  local st !! w' = Some s ∨ (local st !! w = None ∧ w' = w ∧ s = new_session self).
Proof.
  unfold with_session. destruct (local st !! w) eqn:E; [by left|].
  simpl. destruct (decide (w = w')) as [->|Hne].
  - rewrite lookup_insert_eq. intros [= <-]. by right.
  - rewrite lookup_insert_ne by done. by left.
Qed.

(** C10. The session built for a worker carries the client's [auth] by the
    length of the tuple: a one-element tuple gives its element as the client
    certificate and no credentials, any other tuple is attached whole as the
    credentials and no certificate; a request creates the session of its
    worker only when the worker has none, and in every state the client can
    reach every worker's session is the one so built. *)
Theorem session_auth_by_length :
  (match auth self with
   | [c] => cert (new_session self) = Some c ∧ session_auth (new_session self) = None
   | a => cert (new_session self) = None ∧ session_auth (new_session self) = Some a
   end) ∧
  (∀ w req_type url data st,
     local (do_request self w req_type url data st).2 =
     match local st !! w with
     | Some _ => local st
     | None => <[w := new_session self]> (local st)
     end) ∧
  (∀ st, reachable self st →
         ∀ w s, local st !! w = Some s → s = new_session self).
Proof.
  split; [|split].
  - unfold new_session. destruct (auth self) as [|c [|c' a]]; by simpl.
  - intros. rewrite do_request_local. unfold with_session.
    by destruct (local st !! w).
  - induction 1 as [|st w req_type url data Hr IH|st e Hr IH]; intros w' s Hs.
    + simpl in Hs. by rewrite lookup_empty in Hs.
    + rewrite do_request_local in Hs.
      apply with_session_lookup in Hs as [Hs|(_ & _ & ->)]; eauto.
    + eauto.
Qed.

End TransportFacts.

(** C7. The retry policy of the adapter lists exactly the statuses 500, 502,
    503, 504 and exactly the methods HEAD, TRACE, GET, POST, PUT, OPTIONS,
    DELETE; its total and backoff factor are the module constants, which are
    10 and 1.0 when the environment does not set them and the parsed value
    of the variable when it does; the timeout of every request is the module
    constant, 120 unless the environment sets it; both prefixes of a session
    are mounted on that adapter. *)
Theorem retry_transport_configuration
    (py_int : string → option Z) (py_float : string → option float)
    (environ : gmap string string) (c : Config) :
  load_config py_int py_float environ = Ok c →
  load_config py_int py_float ∅ =
    Ok {| HTTP_TOTAL_RETRIES := 10; HTTP_RETRY_BACKOFF := 1%float;
          HTTP_TIMEOUT := 120 |} ∧
  match environ !! "UBIPOP_HTTP_TOTAL_RETRIES" with
  | None => HTTP_TOTAL_RETRIES c = 10
  | Some s => py_int s = Some (HTTP_TOTAL_RETRIES c)
  end ∧
  match environ !! "UBIPOP_HTTP_RETRY_BACKOFF" with
  | None => HTTP_RETRY_BACKOFF c = 1%float
  | Some s => py_float s = Some (HTTP_RETRY_BACKOFF c)
  end ∧
  match environ !! "UBIPOP_HTTP_TIMEOUT" with
  | None => HTTP_TIMEOUT c = 120
  | Some s => py_int s = Some (HTTP_TIMEOUT c)
  end ∧
  max_retries (PulpRetryAdapter c None None) =
    {| total := HTTP_TOTAL_RETRIES c;
       status_forcelist := [500; 502; 503; 504];
       method_whitelist := ["HEAD"; "TRACE"; "GET"; "POST"; "PUT"; "OPTIONS"; "DELETE"];
       backoff_factor := HTTP_RETRY_BACKOFF c |} ∧
  ∀ (P : Platform) (self : Pulp), @cfg P = c →
    adapters (new_session self) !! "http://" = Some (PulpRetryAdapter c None None) ∧
    adapters (new_session self) !! "https://" = Some (PulpRetryAdapter c None None) ∧
    ∀ url data, timeout (post_request self url data) = HTTP_TIMEOUT c ∧
                timeout (get_request self url) = HTTP_TIMEOUT c.
Proof.
  intros Hc. split; [done|].
  unfold load_config, int_of_env, float_of_env in Hc.
  destruct (environ !! "UBIPOP_HTTP_TOTAL_RETRIES") as [s1|];
    [destruct (py_int s1) as [n1|] eqn:E1; [|done]|];
    (destruct (environ !! "UBIPOP_HTTP_RETRY_BACKOFF") as [s2|];
       [destruct (py_float s2) as [x2|] eqn:E2; [|done]|]);
    (destruct (environ !! "UBIPOP_HTTP_TIMEOUT") as [s3|];
       [destruct (py_int s3) as [n3|] eqn:E3; [|done]|]);
    simpl in Hc; injection Hc as <-; simpl;
    (do 4 (split; [done|]));
    intros P self Hcfg; unfold new_session, post_request, get_request;
    rewrite Hcfg;
    (destruct (auth self) as [|? [|? ?]]; simpl;
     (split; [by rewrite lookup_insert_ne, lookup_insert_eq|]);
     (split; [by rewrite lookup_insert_eq|]); by intros).
Qed.

(** ** Query builder *)

Lemma rmap_ok_map {A B} (f : A → Result B) (g : A → B) (l : list A) :
  (∀ x, x ∈ l → f x = Ok (g x)) → rmap f l = Ok (map g l).
Proof.
  induction l as [|a l IH]; intros Hf; [done|]. simpl.
  rewrite Hf by left. simpl. rewrite IH; [done|].
  intros x Hx. apply Hf. by right.
Qed.

Lemma rmap_raise {A B} (f : A → Result B) (l : list A) (e : Exn) :
  rmap f l = Raise e → ∃ x, x ∈ l ∧ f x = Raise e.
Proof.
  induction l as [|a l IH]; [done|]. simpl.
  destruct (f a) as [b|e'] eqn:Ea; simpl.
  - destruct (rmap f l) as [bs|e'] eqn:El; simpl; [done|].
    intros [= ->]. destruct (IH eq_refl) as (x & Hx & Hfx).
    exists x. split; [by right|done].
  - intros [= ->]. exists a. split; [by left|done].
Qed.

Lemma rmap_length {A B} (f : A → Result B) (l : list A) (l' : list B) :
  rmap f l = Ok l' → length l' = length l.
Proof.
  revert l'. induction l as [|a l IH]; intros l'; simpl.
  - by intros [= <-].
  - destruct (f a) as [b|]; simpl; [|done].
    destruct (rmap f l) as [bs|]; simpl; [|done].
    intros [= <-]. simpl. f_equal. by apply IH.
Qed.

Lemma getattr_raise (u : Unit) (attr : string) (e : Exn) :
  getattr u attr = Raise e → e = AttributeError attr.
Proof. unfold getattr. destruct (assoc_get _ _); congruence. Qed.

Lemma modules_query_not_unsupported (units : list Unit) :
  _modules_query units ≠ Raise UnsupportedTypeId.
Proof.
  intros H. apply rmap_raise in H as (u & _ & H).
  repeat (match type of H with
          | rbind (getattr ?u ?a) _ = _ =>
              destruct (getattr u a) eqn:?; simpl in H
          end); try done;
    match goal with
    | E : getattr _ _ = Raise _ |- _ => apply getattr_raise in E; congruence
    end.
Qed.

Lemma module_defaults_query_not_unsupported (units : list Unit) :
  _module_defaults_query units ≠ Raise UnsupportedTypeId.
Proof.
  intros H. apply rmap_raise in H as (u & _ & H).
  repeat (match type of H with
          | rbind (getattr ?u ?a) _ = _ =>
              destruct (getattr u a) eqn:?; simpl in H
          end); try done;
    match goal with
    | E : getattr _ _ = Raise _ |- _ => apply getattr_raise in E; congruence
    end.
Qed.

Lemma rpms_query_not_unsupported (units : list Unit) :
  _rpms_query units ≠ Raise UnsupportedTypeId.
Proof.
  intros H. apply rmap_raise in H as (u & _ & H).
  repeat (match type of H with
          | rbind (getattr ?u ?a) _ = _ =>
              destruct (getattr u a) eqn:?; simpl in H
          end); try done;
    match goal with
    | E : getattr _ _ = Raise _ |- _ => apply getattr_raise in E; congruence
    end.
Qed.

(** C2, as the code has it. Building the query list fails with
    [UnsupportedTypeId] exactly when the type ids contain none of "modulemd",
    "modulemd_defaults", "rpm" and "srpm"; otherwise the first family present,
    in that order of precedence, shapes the query, whatever else the type ids
    contain. *)
Theorem get_query_list_dispatch (type_ids : list string) (units : list Unit) :
  (_get_query_list type_ids units = Raise UnsupportedTypeId ↔
   ("modulemd" ∉ type_ids) ∧ ("modulemd_defaults" ∉ type_ids) ∧
   ("rpm" ∉ type_ids) ∧ ("srpm" ∉ type_ids)) ∧
  ("modulemd" ∈ type_ids →
   _get_query_list type_ids units = _modules_query units) ∧
  ("modulemd" ∉ type_ids → "modulemd_defaults" ∈ type_ids →
   _get_query_list type_ids units = _module_defaults_query units) ∧
  ("modulemd" ∉ type_ids → "modulemd_defaults" ∉ type_ids →
   "rpm" ∈ type_ids ∨ "srpm" ∈ type_ids →
   _get_query_list type_ids units = _rpms_query units).
Proof.
  unfold _get_query_list.
  pose proof (modules_query_not_unsupported units).
  pose proof (module_defaults_query_not_unsupported units).
  pose proof (rpms_query_not_unsupported units).
  repeat case_bool_decide; simpl; naive_solver.
Qed.

(** C2, counterexample. The mixed type ids ("modulemd", "rpm") do not fail:
    they give the module query. *)
Lemma get_query_list_mixed_succeeds :
  _get_query_list ["modulemd"; "rpm"] [UModule ruby] =
    Ok [JObj [("$and", JArr [JObj [("name", JStr "ruby")];
                             JObj [("context", JStr "abcd1234")];
                             JObj [("version", JNum 20190101)];
                             JObj [("stream", JStr "2.5")];
                             JObj [("arch", JStr "x86_64")]])]] ∧
  _get_query_list ["modulemd"; "rpm"] [UModule ruby] ≠ Raise UnsupportedTypeId.
Proof. split; [by vm_compute|by vm_compute]. Qed.

(** ** Search, associate and unassociate *)

Section OperationFacts.
Context `{!Platform}.
Variable self : Pulp.

Lemma mapM_log_info (fmt : string) (args : Unit → list string) (units : list Unit)
    (st : State) :
  ∃ us, mapM (fun unit => log_info fmt (args unit)) units st =
        (Ok us, logged fmt args units st).
Proof.
  revert st. induction units as [|u units IH]; intros st.
  - exists []. unfold logged. simpl. rewrite app_nil_r. by destruct st.
  - simpl. unfold bind, log_info at 1.
    destruct (IH (emit (ELog fmt (args u)) st)) as [us ->].
    exists (tt :: us). unfold ret, logged, emit. simpl.
    by rewrite <- app_assoc.
Qed.

Lemma unassociate_units_eq (w : nat) (repo_id : string) (units : list Unit)
    (type_ids : list string) (query_list : list JSON) (st : State) :
  _get_query_list type_ids units = Ok query_list →
  let st1 := logged "Unassociating %s from %s"
                    (fun unit => [unit_str unit; repo_id]) units st in
  let req := post_request self ("repositories/" +:+ repo_id +:+ "/actions/unassociate/")
               (Some (JObj [("criteria", unit_criteria type_ids query_list)])) in
  unassociate_units self w repo_id units type_ids st =
  (do r <- server (trace st1) req;
   do ret_json <- response_json r;
   spawned_task_ids ret_json,
   emit (EHttp w req) (with_session self w st1)).
Proof.
  intros Hq st1 req. unfold unassociate_units, bind, lift. rewrite Hq.
  destruct (mapM_log_info "Unassociating %s from %s"
              (fun unit => [unit_str unit; repo_id]) units st) as [us ->].
  rewrite do_request_post. fold st1 req.
  by destruct (server (trace st1) req).
Qed.

Lemma associate_units_eq (w : nat) (src_repo_id dest_repo_id : string)
    (units : list Unit) (type_ids : list string) (query_list : list JSON)
    (st : State) :
  _get_query_list type_ids units = Ok query_list →
  let st1 := logged "Associating %s from %s to %s"
                    (fun unit => [unit_str unit; src_repo_id; dest_repo_id]) units st in
  let req := post_request self ("repositories/" +:+ dest_repo_id +:+ "/actions/associate/")
               (Some (JObj [("source_repo_id", JStr src_repo_id);
                            ("criteria", unit_criteria type_ids query_list)])) in
  associate_units self w src_repo_id dest_repo_id units type_ids st =
  (do r <- server (trace st1) req;
   do _ <- raise_for_status r;
   do ret_json <- response_json r;
   spawned_task_ids ret_json,
   emit (EHttp w req) (with_session self w st1)).
Proof.
  intros Hq st1 req. unfold associate_units, bind, lift. rewrite Hq.
  destruct (mapM_log_info "Associating %s from %s to %s"
              (fun unit => [unit_str unit; src_repo_id; dest_repo_id]) units st)
    as [us ->].
  rewrite do_request_post. fold st1 req.
  by destruct (server (trace st1) req).
Qed.

Lemma modules_query_modules (modules : list ModuleUnit) :
  _modules_query (map UModule modules) = Ok (map module_conjunction modules).
Proof.
  unfold _modules_query. rewrite <- (map_map UModule (fun u =>
    match u with UModule m => module_conjunction m | _ => JNull end)).
  apply rmap_ok_map. intros u Hu.
  apply list_elem_of_fmap in Hu as (m & -> & _). done.
Qed.

(** C6. The module query list has one entry per module, in input order, each
    the conjunction ("$and") of the five exact-match fields name, context,
    version, stream and arch of that module; associate and unassociate send
    these entries as the disjunction ("$or") under the unit filter of their
    criteria, in a single POST request. *)
Theorem modules_query_conjunctions (w : nat) (src dst : string)
    (modules : list ModuleUnit) (st : State) :
  _modules_query (map UModule modules) =
    Ok (map (fun m =>
               JObj [("$and", JArr [JObj [("name", JStr (mod_name m))];
                                    JObj [("context", JStr (mod_context m))];
                                    JObj [("version", JNum (mod_version m))];
                                    JObj [("stream", JStr (mod_stream m))];
                                    JObj [("arch", JStr (mod_arch m))]])])
            modules) ∧
  (∃ req,
     last (trace (associate_modules self w src dst modules st).2) = Some (EHttp w req) ∧
     method req = "POST" ∧
     json req =
       Some (JObj [("source_repo_id", JStr src);
                   ("criteria",
                    JObj [("type_ids", JArr [JStr "modulemd"]);
                          ("filters",
                           JObj [("unit",
                                  JObj [("$or",
                                         JArr (map module_conjunction modules))])])])])) ∧
  (∃ req,
     last (trace (unassociate_modules self w dst modules st).2) = Some (EHttp w req) ∧
     method req = "POST" ∧
     json req =
       Some (JObj [("criteria",
                    JObj [("type_ids", JArr [JStr "modulemd"]);
                          ("filters",
                           JObj [("unit",
                                  JObj [("$or",
                                         JArr (map module_conjunction modules))])])])])).
Proof.
  pose proof (modules_query_modules modules) as Hq.
  split; [exact Hq|].
  assert (Hg : _get_query_list ["modulemd"] (map UModule modules) =
               Ok (map module_conjunction modules)) by done.
  split.
  - eexists. unfold associate_modules.
    rewrite (associate_units_eq _ _ _ _ _ _ _ Hg). simpl.
    rewrite last_snoc. done.
  - eexists. unfold unassociate_modules.
    rewrite (unassociate_units_eq _ _ _ _ _ _ Hg). simpl.
    rewrite last_snoc. done.
Qed.

Lemma search_post (A : Type) (w : nat) (url : string) (payload : JSON)
    (k : Response → Result A) (st : State) :
  (let* ret := do_request self w "post" url (Some payload) in
   lift (do r <- deref "raise_for_status" ret; k r)) st =
  (do r <- server (trace st) (post_request self url (Some payload)); k r,
   emit (EHttp w (post_request self url (Some payload))) (with_session self w st)).
Proof.
  unfold bind, lift. rewrite do_request_post.
  by destruct (server (trace st) _).
Qed.

(** C9. With a service that answers [r] to every request, what
    [unassociate_units] returns is read off the body of [r] alone, whatever
    the status code: the spawned task ids, or the failure of decoding or of
    the lookups in the body. [associate_units] and the three searches raise
    [HTTPError] on every response at whose status [raise_for_status] raises,
    whatever the body holds. *)
Theorem unassociate_ignores_status (w : nat) (repo src : string) (units : list Unit)
    (type_ids : list string) (query_list : list JSON) (r : Response) (st : State) :
  _get_query_list type_ids units = Ok query_list →
  (∀ tr req, server tr req = Ok r) →
  (unassociate_units self w repo units type_ids st).1 =
    (do ret_json <- response_json r; spawned_task_ids ret_json) ∧
  (raises_for_status (status_code r) = true →
   (associate_units self w src repo units type_ids st).1 =
     Raise (HTTPError (status_code r)) ∧
   (∀ name arch globbing filename,
      (search_rpms self w repo name arch globbing filename st).1 =
        Raise (HTTPError (status_code r))) ∧
   (∀ name stream,
      (search_modules self w repo name stream st).1 =
        Raise (HTTPError (status_code r))) ∧
   (∀ name stream,
      (search_module_defaults self w repo name stream st).1 =
        Raise (HTTPError (status_code r)))).
Proof.
  intros Hq Hsrv. split.
  - rewrite (unassociate_units_eq _ _ _ _ _ _ Hq). simpl. by rewrite Hsrv.
  - intros Hbad.
    assert (Hr : raise_for_status r = Raise (HTTPError (status_code r))).
    { unfold raise_for_status. by rewrite Hbad. }
    split; [|split; [|split]].
    + rewrite (associate_units_eq _ _ _ _ _ _ _ Hq). simpl.
      rewrite Hsrv. simpl. by rewrite Hr.
    + intros. unfold search_rpms. rewrite search_post. simpl.
      rewrite Hsrv. simpl. by rewrite Hr.
    + intros. unfold search_modules. rewrite search_post. simpl.
      rewrite Hsrv. simpl. by rewrite Hr.
    + intros. unfold search_module_defaults. rewrite search_post. simpl.
      rewrite Hsrv. simpl. by rewrite Hr.
Qed.

Lemma unfiltered_criteria (type_id : string) (name stream : option string) :
  truthy name && truthy stream = false →
  name_stream_criteria type_id name stream = JObj [("type_ids", JArr [JStr type_id])].
Proof. unfold name_stream_criteria. by intros ->. Qed.

(** C1, as the code has it. Without both a name and a stream, the two
    searches post the criteria that hold the type id only, with no filter,
    and return what they return when called with neither argument: one unit
    for each record of the answer of the service. *)
Theorem search_without_both_is_unfiltered (w : nat) (repo : string)
    (name stream : option string) (st : State) :
  truthy name && truthy stream = false →
  search_modules self w repo name stream st =
    search_modules self w repo None None st ∧
  search_module_defaults self w repo name stream st =
    search_module_defaults self w repo None None st ∧
  trace (search_modules self w repo name stream st).2 =
    trace st ++ [EHttp w (post_request self (search_url repo)
       (Some (JObj [("criteria", JObj [("type_ids", JArr [JStr "modulemd"])])])))] ∧
  trace (search_module_defaults self w repo name stream st).2 =
    trace st ++ [EHttp w (post_request self (search_url repo)
       (Some (JObj [("criteria",
                     JObj [("type_ids", JArr [JStr "modulemd_defaults"])])])))] ∧
  (∀ modules,
     (search_modules self w repo name stream st).1 = Ok modules →
     ∃ r records, server (trace st)
                    (post_request self (search_url repo)
                       (Some (JObj [("criteria",
                                     JObj [("type_ids", JArr [JStr "modulemd"])])])))
                  = Ok r ∧
                  rbind (response_json r) iterate = Ok records ∧
                  length modules = length records).
Proof.
  intros Hns. unfold search_modules, search_module_defaults.
  rewrite !(unfiltered_criteria _ _ _ Hns).
  rewrite !(unfiltered_criteria _ None None eq_refl).
  split; [done|]. split; [done|].
  rewrite !search_post. simpl. rewrite !trace_with_session.
  split; [done|]. split; [done|].
  intros modules Hm.
  destruct (server (trace st) _) as [r|]; simpl in Hm; [|done].
  destruct (raise_for_status r); simpl in Hm; [|done].
  destruct (rbind (response_json r) iterate) as [records|] eqn:Hrec;
    simpl in Hm; [|done].
  exists r, records. split; [done|]. split; [done|].
  by apply rmap_length in Hm.
Qed.

End OperationFacts.

(** C1, counterexample. With a name only, [search_modules] returns the module
    the service answers with: the result is not empty. *)
Lemma search_modules_name_only_nonempty :
  (@search_modules ruby_platform example_pulp 0%nat "repo" (Some "ruby") None
     empty_state).1 = Ok [ruby] ∧
  (@search_module_defaults
     (example_platform
        (constant_server
           {| status_code := 200;
              body := Some (JArr [JObj [("metadata",
                                         JObj [("name", JStr "ruby");
                                               ("stream", JStr "2.5");
                                               ("profiles", JObj [])])]]) |}))
     example_pulp 0%nat "repo" (Some "ruby") None empty_state).1 =
    Ok [{| md_name := "ruby"; md_stream := "2.5"; md_profiles := [];
           md_associate_source_repo_id := "repo" |}].
Proof. split; by vm_compute. Qed.

(** ** The identity string of a module-defaults unit *)

Section NameProfiles.

Lemma string_leb_trans (s1 s2 s3 : string) :
  String.leb s1 s2 = true → String.leb s2 s3 = true → String.leb s1 s3 = true.
Proof.
  unfold String.leb. revert s2 s3.
  induction s1 as [|x a IH]; intros [|y b] [|z c]; simpl; try done.
  unfold Ascii.compare.
  destruct (N.compare_spec (N_of_ascii x) (N_of_ascii y)),
           (N.compare_spec (N_of_ascii y) (N_of_ascii z)),
           (N.compare_spec (N_of_ascii x) (N_of_ascii z));
    try done; try lia; eauto.
Qed.

#[local] Instance string_le_trans : Transitive string_le.
Proof. intros s1 s2 s3. apply string_leb_trans. Qed.

#[local] Instance string_le_antisym : AntiSymm (=) string_le.
Proof. intros s1 s2. apply String.leb_antisym. Qed.

Lemma string_le_total (s1 s2 : string) : string_le s1 s2 ∨ string_le s2 s1.
Proof. apply String.leb_total. Qed.

Lemma insert_sorted_perm (x : string) (l : list string) :
  insert_sorted x l ≡ₚ x :: l.
Proof.
  induction l as [|y l IH]; simpl; [done|].
  destruct (String.leb x y); [done|].
  rewrite IH. apply Permutation_swap.
Qed.

Lemma sorted_perm (l : list string) : sorted l ≡ₚ l.
Proof.
  induction l as [|x l IH]; simpl; [done|].
  by rewrite insert_sorted_perm, IH.
Qed.

Lemma insert_sorted_sorted (x : string) (l : list string) :
  StronglySorted string_le l → StronglySorted string_le (insert_sorted x l).
Proof.
  induction 1 as [|y l Hl IH Hy]; simpl.
  - repeat constructor.
  - destruct (String.leb x y) eqn:Hxy.
    + constructor; [by constructor|].
      constructor; [done|].
      eapply Forall_impl; [exact Hy|].
      intros z Hz. by transitivity y.
    + constructor; [done|].
      rewrite insert_sorted_perm. constructor; [|done].
      destruct (string_le_total x y) as [H|H]; [|done].
      unfold string_le in H. congruence.
Qed.

Lemma sorted_sorted (l : list string) : StronglySorted string_le (sorted l).
Proof.
  induction l as [|x l IH]; simpl; [constructor|].
  by apply insert_sorted_sorted.
Qed.

Lemma sorted_perm_eq (l l' : list string) : l ≡ₚ l' → sorted l = sorted l'.
Proof.
  intros Hp. apply (StronglySorted_unique string_le); try apply sorted_sorted.
  by rewrite !sorted_perm.
Qed.

Lemma assoc_get_elem_of {V} (k : string) (v : V) (kvs : list (string * V)) :
  NoDup (map fst kvs) → (assoc_get k kvs = Some v ↔ (k, v) ∈ kvs).
Proof.
  induction kvs as [|[k' v'] kvs IH]; simpl; intros Hnd.
  - split; [done|]. by intros ?%elem_of_nil.
  - apply NoDup_cons in Hnd as [Hk' Hnd].
    destruct (String.eqb_spec k k') as [->|Hne].
    + split.
      * intros [= ->]. by left.
      * intros [[= ->]|Hin]%elem_of_cons; [done|].
        exfalso. apply Hk'. apply list_elem_of_fmap. by exists (k', v).
    + rewrite (IH Hnd). split.
      * by right.
      * intros [[= -> ->]|Hin]%elem_of_cons; done.
Qed.

Lemma assoc_get_perm {V} (k : string) (kvs kvs' : list (string * V)) :
  NoDup (map fst kvs) → kvs' ≡ₚ kvs → assoc_get k kvs' = assoc_get k kvs.
Proof.
  intros Hnd Hp.
  assert (Hnd' : NoDup (map fst kvs')) by by rewrite Hp.
  destruct (assoc_get k kvs) as [v|] eqn:E.
  - apply assoc_get_elem_of; [done|]. rewrite Hp. by apply assoc_get_elem_of.
  - destruct (assoc_get k kvs') as [v|] eqn:E'; [|done].
    apply assoc_get_elem_of in E'; [|done]. rewrite Hp in E'.
    apply assoc_get_elem_of in E'; [|done]. congruence.
Qed.

Lemma append_assoc (a b c : string) : (a +:+ b) +:+ c = a +:+ b +:+ c.
Proof.
  induction a as [|x a IH]; [done|].
  change (String x ((a +:+ b) +:+ c) = String x (a +:+ b +:+ c)). by f_equal.
Qed.

Lemma append_empty_r (a : string) : a +:+ "" = a.
Proof.
  induction a as [|x a IH]; [done|].
  change (String x (a +:+ "") = String x a). by f_equal.
Qed.

Lemma fold_left_append (seg : string → string) (keys : list string) (init : string) :
  fold_left (fun result key => result +:+ seg key) keys init =
  init +:+ String.concat "" (map seg keys).
Proof.
  revert init. induction keys as [|k keys IH]; intros init.
  - simpl. by rewrite append_empty_r.
  - cbn [fold_left map]. rewrite IH, append_assoc. f_equal.
    destruct (map seg keys) eqn:E; simpl; [by rewrite append_empty_r|done].
Qed.

Lemma fold_left_pointwise {A B} (f g : A → B → A) (l : list B) (a : A) :
  (∀ x y, f x y = g x y) → fold_left f l a = fold_left g l a.
Proof.
  intros Hfg. revert a. induction l as [|y l IH]; intros a; simpl; [done|].
  by rewrite Hfg, IH.
Qed.

(** C5. The identity string of a module-defaults unit is its name followed
    by one segment ":[key:names]" per key of the profiles, the keys taken in
    sorted order and the names of each key sorted and joined by commas. A
    unit with the same name whose profiles hold the same entries in another
    order has the same identity string. For "ruby" with profiles
    {"2.5": ["unique", "common"], "1.0": ["common"]} the string is
    "ruby:[1.0:common]:[2.5:common,unique]". *)
Theorem name_profiles_sorted_segments (d d' : ModuleDefaults) :
  NoDup (map fst (md_profiles d)) →
  md_name d' = md_name d →
  md_profiles d' ≡ₚ md_profiles d →
  (∃ (keys : list string) (names : string → list string),
     keys ≡ₚ map fst (md_profiles d) ∧
     StronglySorted string_le keys ∧
     (∀ k ns, (k, ns) ∈ md_profiles d →
              names k ≡ₚ ns ∧ StronglySorted string_le (names k)) ∧
     name_profiles d =
       md_name d +:+
       String.concat ""
         (map (fun k => ":[" +:+ k +:+ ":" +:+ join "," (names k) +:+ "]") keys)) ∧
  name_profiles d' = name_profiles d ∧
  name_profiles ruby_defaults = "ruby:[1.0:common]:[2.5:common,unique]".
Proof.
  intros Hnd Hname Hperm. split; [|split].
  - exists (sorted (map fst (md_profiles d))),
           (fun k => sorted (default [] (assoc_get k (md_profiles d)))).
    split; [apply sorted_perm|]. split; [apply sorted_sorted|]. split.
    + intros k ns Hin. apply assoc_get_elem_of in Hin; [|done].
      rewrite Hin. simpl. split; [apply sorted_perm|apply sorted_sorted].
    + unfold name_profiles.
      apply (fold_left_append
               (fun k => ":[" +:+ k +:+ ":" +:+
                         join "," (sorted (default [] (assoc_get k (md_profiles d))))
                         +:+ "]")).
  - unfold name_profiles. rewrite Hname.
    rewrite (sorted_perm_eq (map fst (md_profiles d')) (map fst (md_profiles d)))
      by by rewrite Hperm.
    apply fold_left_pointwise. intros result key.
    by rewrite (assoc_get_perm key _ _ Hnd Hperm).
  - by vm_compute.
Qed.

End NameProfiles.

(** ** Task tracker *)

Section TaskFacts.
Context `{!Platform}.
Variable self : Pulp.
Variable w : nat.
Variable delay : float.

Lemma polls_app (url : string) (tr1 tr2 : list Event) :
  polls url (tr1 ++ tr2) = (polls url tr1 + polls url tr2)%nat.
Proof. unfold polls. by rewrite filter_app, length_app. Qed.

Lemma polls_sleep (url : string) (d : float) : polls url [ESleep d] = 0%nat.
Proof. done. Qed.

Lemma polls_gets_self (t : string) :
  polls (req_url (task_request self t)) (gets self w [t]) = 1%nat.
Proof.
  unfold polls, gets. simpl. rewrite filter_cons_True; [done|].
  simpl. by rewrite String.eqb_refl.
Qed.

Lemma polls_gets_other (t : string) (l : list string) :
  (∀ t', t' ∈ l → req_url (task_request self t') ≠ req_url (task_request self t)) →
  polls (req_url (task_request self t)) (gets self w l) = 0%nat.
Proof.
  induction l as [|t' l IH]; intros Hne; [done|].
  unfold polls, gets in *. simpl. rewrite filter_cons_False.
  - apply IH. intros t'' Ht''. apply Hne. by right.
  - simpl. intros Heq. apply String.eqb_eq in Heq. revert Heq. apply Hne. by left.
Qed.

Lemma search_tasks_cons (t : string) (l : list string) (st : State) :
  search_tasks self w (t :: l) st =
  match rbind (server (trace st) (task_request self t)) response_json with
  | Ok j =>
      match search_tasks self w l
              (emit (EHttp w (task_request self t)) (with_session self w st)) with
      | (Ok js, st') => (Ok (j :: js), st')
      | (Raise e, st') => (Raise e, st')
      end
  | Raise e => (Raise e, emit (EHttp w (task_request self t)) (with_session self w st))
  end.
Proof.
  unfold search_tasks at 1. simpl. unfold bind at 1 2.
  rewrite do_request_get. fold (task_request self t).
  destruct (server (trace st) (task_request self t)) as [r|e]; simpl; [|done].
  destruct (response_json r) as [j|e]; [|done].
  unfold bind, search_tasks, ret.
  by destruct (mapM _ l _) as [[js|e] st'].
Qed.

(** The requests of a successful [search_tasks]: one GET per id, in order. *)
Lemma search_tasks_trace (l : list string) (st : State) (js : list JSON) (st' : State) :
  search_tasks self w l st = (Ok js, st') →
  trace st' = trace st ++ gets self w l.
Proof.
  revert st js. induction l as [|t l IH]; intros st js.
  - intros [= <- <-]. by rewrite app_nil_r.
  - rewrite search_tasks_cons.
    destruct (rbind _ response_json) as [j|e]; [|done].
    destruct (search_tasks self w l _) as [[js'|e] st''] eqn:E; [|done].
    intros [= <- <-]. apply IH in E. rewrite E. simpl.
    rewrite trace_with_session. by rewrite <- app_assoc.
Qed.

Lemma search_tasks_ok (f : string → JSON) (l : list string) (st : State) :
  (∀ pre t post, l = pre ++ t :: post →
     rbind (server (trace st ++ gets self w pre) (task_request self t)) response_json
     = Ok (f t)) →
  ∃ st', search_tasks self w l st = (Ok (map f l), st').
Proof.
  revert st. induction l as [|t l IH]; intros st Hsrv.
  - by eexists.
  - rewrite search_tasks_cons.
    pose proof (Hsrv [] t l eq_refl) as H0. simpl in H0.
    rewrite app_nil_r in H0. rewrite H0.
    destruct (IH (emit (EHttp w (task_request self t)) (with_session self w st)))
      as [st' ->]; [|by eexists].
    intros pre t' post ->. simpl. rewrite trace_with_session.
    rewrite <- app_assoc. by apply (Hsrv (t :: pre) t' post).
Qed.


Lemma search_tasks_bodies (l : list string) (st : State) (js : list JSON) (st' : State) :
  search_tasks self w l st = (Ok js, st') →
  Forall (fun j => ∃ tr req r, server tr req = Ok r ∧ body r = Some j) js.
Proof.
  revert st js. induction l as [|t l IH]; intros st js.
  - intros [= <- <-]. constructor.
  - rewrite search_tasks_cons.
    destruct (server (trace st) (task_request self t)) as [r|e] eqn:Er; [|done].
    simpl. unfold response_json. destruct (body r) as [j|] eqn:Eb; [|done].
    destruct (search_tasks self w l _) as [[js'|e] st''] eqn:E; [|done].
    intros [= <- <-]. constructor; [by eauto|by eapply IH].
Qed.

Lemma record_status_ok (t : string) (status : JSON) (P : gset string)
    (R : gmap Key JSON) :
  getitem status "task_id" = Ok (JStr t) →
  is_ok (getitem status "state") →
  record_status (P, R) status =
    Ok (if term_b status then P ∖ {[t]} else P, <[KStr t := status]> R).
Proof.
  intros Hid [state Hstate]. unfold record_status, term_b.
  rewrite Hstate. simpl. destruct (is_terminal state); rewrite Hid; done.
Qed.

Lemma record_statuses_ok (f : string → JSON) (l : list string) (P : gset string)
    (R : gmap Key JSON) :
  (∀ t, t ∈ l → getitem (f t) "task_id" = Ok (JStr t) ∧
                 is_ok (getitem (f t) "state")) →
  ∃ P' R',
    record_statuses (P, R) (map f l) = Ok (P', R') ∧
    (∀ t, t ∈ P' ↔ t ∈ P ∧ ¬ (t ∈ l ∧ term_b (f t) = true)) ∧
    (∀ t, R' !! KStr t = if decide (t ∈ l) then Some (f t) else R !! KStr t) ∧
    (∀ key, key ∈ dom R' ↔ key ∈ dom R ∨ ∃ t, t ∈ l ∧ key = KStr t).
Proof.
  revert P R. induction l as [|t0 l IH]; intros P R Hl.
  - exists P, R. split; [done|]. split; [|split].
    + intros t. set_solver.
    + intros t. by rewrite decide_False by set_solver.
    + intros key. set_solver.
  - destruct (Hl t0 ltac:(left)) as [Hid Hst]. cbn [record_statuses map].
    rewrite (record_status_ok t0 _ _ _ Hid Hst). cbn [rbind].
    destruct (IH (if term_b (f t0) then P ∖ {[t0]} else P) (<[KStr t0 := f t0]> R))
      as (P' & R' & -> & HP & HR & HD).
    { intros t Ht. apply Hl. by right. }
    exists P', R'. split; [done|]. split; [|split].
    + intros t. rewrite HP. destruct (term_b (f t0)) eqn:Et0.
      * rewrite elem_of_difference, elem_of_singleton, elem_of_cons.
        split; [naive_solver|].
        intros [HtP Hn]. split; [split; [done|]|]; naive_solver.
      * rewrite elem_of_cons. split; [|naive_solver].
        intros [HtP Hn]. split; [done|]. intros [[->|Hin] Ht]; [congruence|].
        naive_solver.
    + intros t. rewrite HR. destruct (decide (t ∈ l)) as [Hin|Hnin].
      * rewrite decide_True; [done|by right].
      * destruct (decide (t = t0)) as [->|Hne].
        -- rewrite lookup_insert_eq. rewrite decide_True; [done|by left].
        -- rewrite lookup_insert_ne by congruence.
           rewrite decide_False; [done|]. rewrite elem_of_cons. naive_solver.
    + intros key. rewrite HD, dom_insert, elem_of_union, elem_of_singleton.
      setoid_rewrite elem_of_cons. naive_solver.
Qed.

Lemma record_status_keeps (t : string) (status : JSON) (P P' : gset string)
    (R R' : gmap Key JSON) :
  record_status (P, R) status = Ok (P', R') →
  ¬ (getitem status "task_id" = Ok (JStr t) ∧ terminal_status status) →
  t ∈ P → t ∈ P'.
Proof.
  unfold record_status. intros Hrec Hnot Ht.
  destruct (getitem status "state") as [state|] eqn:Es; simpl in Hrec; [|done].
  destruct (is_terminal state) eqn:Eterm.
  - destruct (getitem status "task_id") as [task_id|] eqn:Ei; simpl in Hrec; [|done].
    destruct (to_key task_id) as [k|] eqn:Ek; simpl in Hrec; [|done].
    injection Hrec as <- <-.
    destruct task_id; simpl in Ek; try done; injection Ek as <-; simpl; try done.
    apply elem_of_difference. split; [done|].
    rewrite elem_of_singleton. intros ->. apply Hnot. split; [done|].
    by exists state.
  - simpl in Hrec.
    destruct (getitem status "task_id") as [task_id|]; simpl in Hrec; [|done].
    destruct (to_key task_id) as [k|]; simpl in Hrec; [|done].
    by injection Hrec as <- <-.
Qed.

Lemma record_statuses_keeps (t : string) (statuses : list JSON) (P P' : gset string)
    (R R' : gmap Key JSON) :
  record_statuses (P, R) statuses = Ok (P', R') →
  Forall (fun status =>
            ¬ (getitem status "task_id" = Ok (JStr t) ∧ terminal_status status))
         statuses →
  t ∈ P → t ∈ P'.
Proof.
  revert P R. induction statuses as [|status statuses IH]; intros P R;
    cbn [record_statuses].
  - by intros [= <- <-].
  - destruct (record_status (P, R) status) as [[P1 R1]|] eqn:E1; cbn [rbind]; [|done].
    intros Hrec [Hs Hrest]%Forall_cons Ht.
    eapply IH; [exact Hrec|exact Hrest|].
    by eapply record_status_keeps.
Qed.

(** What a round that completes did: one GET per pending id, in the order
    the set is iterated, then a sleep unless no id is pending any more. *)
Lemma wait_round_trace (acc acc' : gset string * gmap Key JSON) (st st' : State) :
  wait_round self w delay acc st = (Ok acc', st') →
  trace st' = trace st ++ gets self w (set_order acc.1) ++
              (if decide (acc'.1 = ∅) then [] else [ESleep delay]) ∧
  ∃ statuses st1,
    search_tasks self w (set_order acc.1) st = (Ok statuses, st1) ∧
    record_statuses acc statuses = Ok acc'.
Proof.
  unfold wait_round, bind.
  destruct (search_tasks self w (set_order acc.1) st) as [[statuses|e] st1] eqn:Es;
    [|done].
  unfold lift. destruct (record_statuses acc statuses) as [acc1|e] eqn:Er; [|done].
  apply search_tasks_trace in Es as Htr.
  destruct (decide (acc1.1 = ∅)) as [Hempty|Hne]; unfold ret, sleep;
    intros [= <- <-].
  - rewrite decide_True by done. rewrite app_nil_r. eauto.
  - rewrite decide_False by done. simpl. rewrite Htr, <- app_assoc. eauto.
Qed.

Lemma running_not_terminal (status : JSON) :
  running_status status → terminal_status status → False.
Proof. intros (s & Hs & Hr) (s' & Hs' & Ht). congruence. Qed.

Lemma wait_loop_stuck (t : string) :
  (∀ tr req r status,
     server tr req = Ok r → body r = Some status →
     ¬ (getitem status "task_id" = Ok (JStr t) ∧ terminal_status status)) →
  ∀ fuel acc st, t ∈ acc.1 →
  ∀ results st', wait_loop self fuel w delay acc st ≠ Some (Ok results, st').
Proof.
  intros Hstuck. induction fuel as [|fuel IH]; intros acc st Ht results st'; [done|].
  simpl. rewrite decide_False by set_solver.
  destruct (wait_round self w delay acc st) as [[acc'|e] st1] eqn:Er; [|done].
  apply IH. apply wait_round_trace in Er as (_ & statuses & st0 & Hs & Hrec).
  destruct acc as [P R], acc' as [P' R'].
  eapply record_statuses_keeps; [exact Hrec| |exact Ht].
  apply search_tasks_bodies in Hs.
  eapply Forall_impl; [exact Hs|].
  intros status (tr & req & r & Hsrv & Hbody). by eapply Hstuck.
Qed.

Section Settling.
Variable ids : list string.
Variable poll : string → nat → JSON.
Variable st : State.
Hypothesis H_order : ∀ s, set_order s ≡ₚ elements s.
Hypothesis H_inj : ∀ t t', t ∈ ids → t' ∈ ids →
  req_url (task_request self t) = req_url (task_request self t') → t = t'.
Hypothesis H_srv : ∀ tr t, t ∈ ids →
  rbind (server (trace st ++ tr) (task_request self t)) response_json =
  Ok (poll t (polls (req_url (task_request self t)) tr)).
Hypothesis H_term : ∀ t, t ∈ ids → ∃ k, settles t (poll t) k.

Lemma set_order_elem (s : gset string) (t : string) : t ∈ set_order s ↔ t ∈ s.
Proof. by rewrite H_order, elem_of_elements. Qed.

Lemma set_order_NoDup (s : gset string) : NoDup (set_order s).
Proof. rewrite H_order. apply NoDup_elements. Qed.

Lemma polls_gets_absent (t : string) (l : list string) :
  t ∈ ids → (∀ t', t' ∈ l → t' ∈ ids) → t ∉ l →
  polls (req_url (task_request self t)) (gets self w l) = 0%nat.
Proof.
  intros Ht Hl Hnin. apply polls_gets_other. intros t' Ht' Heq.
  apply H_inj in Heq; [|by apply Hl|done]. by subst.
Qed.

Lemma polls_gets_present (t : string) (l : list string) :
  (∀ t', t' ∈ l → t' ∈ ids) → NoDup l → t ∈ l →
  polls (req_url (task_request self t)) (gets self w l) = 1%nat.
Proof.
  intros Hl Hnd Hin. apply list_elem_of_split in Hin as (pre & post & ->).
  apply NoDup_app in Hnd as (_ & Hpre & Hpost%NoDup_cons).
  destruct Hpost as [Hpost _].
  assert (Ht : t ∈ ids) by (apply Hl; set_solver).
  unfold gets. rewrite map_app. simpl.
  change (polls (req_url (task_request self t))
            (gets self w pre ++ gets self w [t] ++ gets self w post) = 1%nat).
  rewrite !polls_app, polls_gets_self.
  rewrite (polls_gets_absent t pre), (polls_gets_absent t post); try done.
  - intros t' Ht'. apply Hl. set_solver.
  - intros t' Ht'. apply Hl. set_solver.
  - intros Hin. apply (Hpre t Hin). by left.
Qed.

Lemma settles_from (t : string) (n : nat) :
  t ∈ ids → (∀ j, (j < n)%nat → running_status (poll t j)) →
  ∃ k, (n ≤ k)%nat ∧ settles t (poll t) k.
Proof.
  intros Ht Hrun. destruct (H_term t Ht) as [k Hk]. exists k. split; [|done].
  destruct (decide (n ≤ k)%nat) as [|Hlt]; [done|]. exfalso.
  destruct Hk as (Hterm & _). eapply running_not_terminal; [|exact Hterm].
  apply Hrun. lia.
Qed.

Lemma settles_status (t : string) (n k : nat) :
  (n ≤ k)%nat → settles t (poll t) k →
  getitem (poll t n) "task_id" = Ok (JStr t) ∧
  is_ok (getitem (poll t n) "state") ∧
  (term_b (poll t n) = true ↔ n = k).
Proof.
  intros Hle (Hterm & Hrun & Hecho). split; [by apply Hecho|].
  destruct (decide (n = k)) as [->|Hne].
  - destruct Hterm as (s & Hs & Ht). split; [by exists s|].
    unfold term_b. by rewrite Hs.
  - destruct (Hrun n ltac:(lia)) as (s & Hs & Hr). split; [by exists s|].
    unfold term_b. rewrite Hs, Hr. split; [done|by intros].
Qed.

Lemma wait_round_settling (n : nat) (P : gset string) (R : gmap Key JSON)
    (tr : list Event) (stn : State) :
  tracker_inv self ids poll n P R tr → trace stn = trace st ++ tr →
  ∃ P' R' st' tr',
    wait_round self w delay (P, R) stn = (Ok (P', R'), st') ∧
    trace st' = trace st ++ tr' ∧ tracker_inv self ids poll (S n) P' R' tr'.
Proof.
  intros (HP & HN & HD) Htr.
  pose proof (set_order_NoDup P) as Hnd.
  assert (Hl : ∀ t, t ∈ set_order P → t ∈ P) by (intros t; by rewrite set_order_elem).
  assert (Hl' : ∀ t, t ∈ P → t ∈ set_order P) by (intros t; by rewrite set_order_elem).
  set (l := set_order P) in *.
  assert (Hlids : ∀ t, t ∈ l → t ∈ ids) by (intros t Ht; by apply HP, Hl).
  assert (Hst : ∀ t, t ∈ l →
            ∃ k, (n ≤ k)%nat ∧ settles t (poll t) k).
  { intros t Ht. apply settles_from; [by apply Hlids|]. by apply HP, Hl. }
  destruct (search_tasks_ok (fun t => poll t n) l stn) as [st1 Hsearch].
  { intros pre t post Hsplit. rewrite Htr, <- app_assoc.
    assert (Ht : t ∈ l) by (rewrite Hsplit; set_solver).
    rewrite H_srv by by apply Hlids. do 2 f_equal.
    rewrite polls_app. destruct (HP t (Hl t Ht)) as (_ & -> & _).
    rewrite polls_gets_absent; [lia|by apply Hlids| |].
    - intros t' Ht'. apply Hlids. rewrite Hsplit. set_solver.
    - rewrite Hsplit in Hnd. apply NoDup_app in Hnd as (_ & Hpre & _).
      intros Hin. apply (Hpre t Hin). by left. }
  destruct (record_statuses_ok (fun t => poll t n) l P R) as (P' & R' & Hrec & HP' & HR' & HD').
  { intros t Ht. destruct (Hst t Ht) as (k & Hle & Hk).
    destruct (settles_status t n k Hle Hk) as (? & ? & _). done. }
  apply search_tasks_trace in Hsearch as Htr1.
  exists P', R'.
  exists (if decide (P' = ∅) then st1 else emit (ESleep delay) st1).
  exists (tr ++ gets self w l ++ (if decide (P' = ∅) then [] else [ESleep delay])).
  split; [|split].
  - unfold wait_round, bind. simpl. fold l. rewrite Hsearch.
    unfold lift. rewrite Hrec. simpl.
    by destruct (decide (P' = ∅)).
  - destruct (decide (P' = ∅)); simpl; rewrite Htr1, Htr, <- ?app_assoc; [|done].
    by rewrite app_nil_r.
  - assert (Hpolls_in : ∀ t, t ∈ l →
              polls (req_url (task_request self t))
                (tr ++ gets self w l ++ (if decide (P' = ∅) then [] else [ESleep delay]))
              = S n).
    { intros t Ht. rewrite !polls_app. destruct (HP t (Hl t Ht)) as (_ & -> & _).
      rewrite polls_gets_present by done.
      destruct (decide (P' = ∅)); [change (polls ?u []) with 0%nat|rewrite polls_sleep];
        lia. }
    split; [|split].
    + intros t [HtP Hnot]%HP'. destruct (HP t HtP) as (Hid & Hpolls & Hrun).
      assert (Ht : t ∈ l) by by apply Hl'.
      split; [done|]. split; [by apply Hpolls_in|].
      intros j Hj. destruct (decide (j = n)) as [->|]; [|apply Hrun; lia].
      destruct (Hst t Ht) as (k & Hle & Hk).
      destruct (settles_status t n k Hle Hk) as (_ & _ & Hiff).
      destruct Hk as (_ & Hk & _). apply Hk.
      destruct (decide (n = k)) as [Heq|]; [|lia].
      exfalso. apply Hnot. split; [done|]. by apply Hiff.
    + intros t Hid HnP'. destruct (decide (t ∈ P)) as [HtP|HtP].
      * assert (Ht : t ∈ l) by by apply Hl'.
        destruct (Hst t Ht) as (k & Hle & Hk).
        destruct (settles_status t n k Hle Hk) as (_ & _ & Hiff).
        assert (n = k) as <-.
        { apply Hiff. destruct (term_b (poll t n)) eqn:E; [done|].
          exfalso. apply HnP'. apply HP'. split; [done|]. intros [_ ?]. congruence. }
        exists n. split; [done|]. split; [|by apply Hpolls_in].
        rewrite HR'. by rewrite decide_True.
      * assert (Ht : t ∉ l) by (intros ?; by apply HtP, Hl).
        destruct (HN t Hid HtP) as (k & Hk & HRk & Hpk).
        exists k. split; [done|]. split.
        -- rewrite HR'. by rewrite decide_False.
        -- rewrite !polls_app, Hpk, polls_gets_absent by done.
           destruct (decide (P' = ∅));
             [change (polls ?u []) with 0%nat|rewrite polls_sleep]; lia.
    + intros key [Hk|(t & Ht & ->)]%HD'; [by apply HD|].
      exists t. split; [by apply Hlids|done].
Qed.

Lemma settle_bound (l : list string) :
  (∀ t, t ∈ l → t ∈ ids) →
  ∃ N, ∀ t, t ∈ l → ∃ k, (k ≤ N)%nat ∧ settles t (poll t) k.
Proof.
  induction l as [|t0 l IH]; intros Hl.
  - exists 0%nat. by intros t ?%elem_of_nil.
  - destruct IH as [N HN]; [intros t Ht; apply Hl; by right|].
    destruct (H_term t0) as [k0 Hk0]; [apply Hl; by left|].
    exists (N `max` k0)%nat. intros t [->|Ht]%elem_of_cons.
    + exists k0. split; [lia|done].
    + destruct (HN t Ht) as (k & Hle & Hk). exists k. split; [lia|done].
Qed.

Lemma wait_loop_settling (N : nat) :
  (∀ t, t ∈ ids → ∃ k, (k ≤ N)%nat ∧ settles t (poll t) k) →
  ∀ d n P R tr stn,
    tracker_inv self ids poll n P R tr → trace stn = trace st ++ tr → (N < n + d)%nat →
    ∃ n' results st' tr',
      wait_loop self (S d) w delay (P, R) stn = Some (Ok results, st') ∧
      trace st' = trace st ++ tr' ∧ tracker_inv self ids poll n' ∅ results tr'.
Proof.
  intros HN. induction d as [|d IH]; intros n P R tr stn HInv Htr Hlt.
  - assert (P = ∅) as ->.
    { apply set_eq. intros t. split; [|set_solver]. intros Ht. exfalso.
      destruct HInv as (HP & _). destruct (HP t Ht) as (Hid & _ & Hrun).
      destruct (HN t Hid) as (k & Hle & Hterm & _).
      eapply running_not_terminal; [|exact Hterm]. apply Hrun. lia. }
    exists n, R, stn, tr. simpl. by rewrite decide_True.
  - destruct (decide (P = ∅)) as [->|Hne].
    { exists n, R, stn, tr. simpl. by rewrite decide_True. }
    destruct (wait_round_settling n P R tr stn HInv Htr)
      as (P' & R' & st' & tr' & Hround & Htr' & HInv').
    destruct (IH (S n) P' R' tr' st' HInv' Htr' ltac:(lia))
      as (n' & results & st'' & tr'' & Hloop & Htr'' & HInv'').
    exists n', results, st'', tr''. split; [|done].
    change (wait_loop self (S (S d)) w delay (P, R) stn) with
      (if decide ((P, R).1 = ∅) then Some (Ok (P, R).2, stn)
       else match wait_round self w delay (P, R) stn with
            | (Ok acc', st') => wait_loop self (S d) w delay acc' st'
            | (Raise e, st') => Some (Raise e, st')
            end).
    rewrite decide_False by done. by rewrite Hround.
Qed.

(** C3. Let the service answer the [k]-th status request for a given id [t]
    with the status [poll t k], let distinct given ids have distinct status
    URLs, let a set be iterated member by member, and let the statuses of
    every given id settle: a terminal state is reached at some request,
    the states before it are not terminal, and the statuses up to it carry
    the id. Then [wait_for_tasks] returns, with enough fuel, a mapping whose
    keys are exactly the given ids, each mapped to its first terminal status;
    an id whose status settles at its [k]-th request was requested [k + 1]
    times, once in every round in which it was pending; and every completed
    round sends exactly one GET request per pending id, followed by one sleep
    unless no id stays pending. *)
Theorem wait_for_tasks_returns_terminal_statuses :
  ∃ fuel results st' tr,
    wait_for_tasks self fuel w ids delay st = Some (Ok results, st') ∧
    trace st' = trace st ++ tr ∧
    dom results = list_to_set (KStr <$> ids) ∧
    (∀ t, t ∈ ids →
          ∃ k, settles t (poll t) k ∧ results !! KStr t = Some (poll t k) ∧
               polls (req_url (task_request self t)) tr = S k) ∧
    (∀ acc acc' st0 st1,
       wait_round self w delay acc st0 = (Ok acc', st1) →
       trace st1 = trace st0 ++
                   map (fun t => EHttp w (task_request self t)) (set_order acc.1) ++
                   (if decide (acc'.1 = ∅) then [] else [ESleep delay])).
Proof.
  destruct (settle_bound ids) as [N HN]; [done|].
  destruct (wait_loop_settling N HN (S N) 0 (list_to_set ids) ∅ [] st)
    as (n' & results & st' & tr & Hloop & Htr & HP & HR & HD).
  { split; [|split].
    - intros t Ht%elem_of_list_to_set. split; [done|]. split; [done|]. lia.
    - intros t Ht Hn. exfalso. apply Hn. by apply elem_of_list_to_set.
    - intros key. rewrite dom_empty. set_solver. }
  { by rewrite app_nil_r. }
  { lia. }
  exists (S (S N)), results, st', tr. split; [exact Hloop|]. split; [done|].
  split; [|split].
  - apply set_eq. intros key. rewrite elem_of_list_to_set, list_elem_of_fmap. split.
    + intros (t & Ht & ->)%HD. by exists t.
    + intros (t & -> & Ht). destruct (HR t Ht) as (k & _ & Hk & _); [set_solver|].
      apply elem_of_dom. by eexists.
  - intros t Ht. apply HR; [done|set_solver].
  - intros acc acc' st0 st1 Hround. by apply wait_round_trace in Hround as [? _].
Qed.
End Settling.

Lemma wait_loop_rounds (fuel : nat) (acc : gset string * gmap Key JSON) (st : State)
    (results : gmap Key JSON) (st' : State) :
  wait_loop self fuel w delay acc st = Some (Ok results, st') →
  ∃ acc', rounds self w delay acc st acc' st' ∧ acc'.1 = ∅ ∧ acc'.2 = results.
Proof.
  revert acc st. induction fuel as [|fuel IH]; intros acc st; [done|].
  simpl. destruct (decide (acc.1 = ∅)) as [Hempty|Hne].
  - intros [= <- <-]. exists acc. split; [constructor|done].
  - destruct (wait_round self w delay acc st) as [[acc1|e] st1] eqn:Er; [|done].
    intros (acc' & Hrounds & Hacc')%IH. exists acc'. split; [|done].
    by eapply rounds_more.
Qed.

(** C4. If no response of the service ever reports a terminal state under
    the id of some given task, [wait_for_tasks] does not return, whatever
    the fuel. The loop returns only from a state that completed rounds have
    led to and in which no id is pending; a completed round that leaves an id
    pending ends with a sleep of [delay], and one that leaves none does not
    sleep. *)
Theorem wait_for_tasks_blocks_on_stuck_task (ids : list string) (t : string)
    (st : State) :
  t ∈ ids →
  (∀ tr req r status,
     server tr req = Ok r → body r = Some status →
     ¬ (getitem status "task_id" = Ok (JStr t) ∧ terminal_status status)) →
  (∀ fuel results st',
     wait_for_tasks self fuel w ids delay st ≠ Some (Ok results, st')) ∧
  (∀ fuel acc st0 results st1,
     wait_loop self fuel w delay acc st0 = Some (Ok results, st1) →
     ∃ acc', rounds self w delay acc st0 acc' st1 ∧ acc'.1 = ∅ ∧ acc'.2 = results) ∧
  (∀ acc acc' st0 st1,
     wait_round self w delay acc st0 = (Ok acc', st1) →
     (acc'.1 ≠ ∅ →
      trace st1 = trace st0 ++ gets self w (set_order acc.1) ++ [ESleep delay]) ∧
     (acc'.1 = ∅ →
      trace st1 = trace st0 ++ gets self w (set_order acc.1))).
Proof.
  intros Ht Hstuck. split; [|split].
  - intros fuel results st'. apply (wait_loop_stuck t Hstuck).
    simpl. by apply elem_of_list_to_set.
  - intros fuel acc st0 results st1. apply wait_loop_rounds.
  - intros acc acc' st0 st1 [Htr _]%wait_round_trace. split; intros Hacc.
    + by rewrite decide_False in Htr.
    + rewrite decide_True in Htr by done. by rewrite app_nil_r in Htr.
Qed.

End TaskFacts.

(** ** The properties at concrete inputs *)

(** The example of the specification: with "t1" running and "t2" finished in
    the first round and "t1" finished in the second, [wait_for_tasks] makes
    two rounds (three requests and one sleep) and returns both final
    statuses. *)
Example wait_for_tasks_two_rounds :
  match @wait_for_tasks (example_platform example_task_server) example_pulp
          3 0 ["t1"; "t2"] 5%float empty_state with
  | Some (Ok results, st') =>
      map_to_list results =
        [(KStr "t1", JObj [("task_id", JStr "t1"); ("state", JStr "finished")]);
         (KStr "t2", JObj [("task_id", JStr "t2"); ("state", JStr "finished")])] ∧
      trace st' =
        [EHttp 0 (@task_request (example_platform example_task_server)
                    example_pulp "t1");
         EHttp 0 (@task_request (example_platform example_task_server)
                    example_pulp "t2");
         ESleep 5%float;
         EHttp 0 (@task_request (example_platform example_task_server)
                    example_pulp "t1")]
  | _ => False
  end.
Proof. by vm_compute. Qed.

Lemma search_without_both_is_unfiltered_witness :
  @search_modules ruby_platform example_pulp 0%nat "repo" (Some "ruby") None
    empty_state =
  @search_modules ruby_platform example_pulp 0%nat "repo" None None empty_state.
Proof.
  exact (proj1 (@search_without_both_is_unfiltered ruby_platform example_pulp
                  0%nat "repo" (Some "ruby") None empty_state eq_refl)).
Defined.

Lemma get_query_list_dispatch_witness :
  _get_query_list ["erratum"] [UModule ruby] = Raise UnsupportedTypeId.
Proof.
  apply (proj1 (get_query_list_dispatch ["erratum"] [UModule ruby])).
  repeat split; intros H%list_elem_of_singleton; discriminate H.
Defined.

Lemma wait_for_tasks_returns_terminal_statuses_witness :
  ∃ fuel results st',
    @wait_for_tasks (example_platform example_task_server) example_pulp
      fuel 0%nat ["t1"; "t2"] 5%float empty_state = Some (Ok results, st') ∧
    dom results = list_to_set (KStr <$> ["t1"; "t2"]).
Proof.
  destruct (@wait_for_tasks_returns_terminal_statuses
              (example_platform example_task_server) example_pulp 0%nat 5%float
              ["t1"; "t2"] example_poll empty_state)
    as (fuel & results & st' & tr & Hrun & _ & Hdom & _).
  - intros s. reflexivity.
  - intros t t' Ht Ht' Heq.
    apply elem_of_cons in Ht as [->|Ht]; [|apply list_elem_of_singleton in Ht as ->];
      (apply elem_of_cons in Ht' as [->|Ht'];
       [|apply list_elem_of_singleton in Ht' as ->]);
      first [reflexivity|discriminate Heq].
  - intros tr t Ht.
    apply elem_of_cons in Ht as [->|Ht]; [|apply list_elem_of_singleton in Ht as ->];
      reflexivity.
  - intros t Ht.
    apply elem_of_cons in Ht as [->|Ht]; [|apply list_elem_of_singleton in Ht as ->].
    + exists 1%nat. split; [|split].
      * exists (JStr "finished"). split; reflexivity.
      * intros j Hj. assert (j = 0%nat) as -> by lia.
        exists (JStr "running"). split; reflexivity.
      * intros j Hj. reflexivity.
    + exists 0%nat. split; [|split].
      * exists (JStr "finished"). split; reflexivity.
      * intros j Hj. lia.
      * intros j Hj. reflexivity.
  - exists fuel, results, st'. split; [exact Hrun|exact Hdom].
Defined.

Lemma wait_for_tasks_blocks_on_stuck_task_witness :
  @wait_for_tasks (example_platform stuck_task_server) example_pulp
    4 0%nat ["t1"; "t2"] 5%float empty_state = None ∧
  ∀ fuel results st',
    @wait_for_tasks (example_platform stuck_task_server) example_pulp
      fuel 0%nat ["t1"; "t2"] 5%float empty_state ≠ Some (Ok results, st').
Proof.
  split; [by vm_compute|].
  apply (@wait_for_tasks_blocks_on_stuck_task
           (example_platform stuck_task_server) example_pulp 0%nat 5%float
           ["t1"; "t2"] "t1" empty_state).
  - by left.
  - intros tr req r status [= <-] [= <-] [_ (state & Hs & Ht)].
    injection Hs as <-. discriminate Ht.
Defined.

Lemma name_profiles_sorted_segments_witness :
  name_profiles ruby_defaults_reordered = name_profiles ruby_defaults.
Proof.
  apply (name_profiles_sorted_segments ruby_defaults ruby_defaults_reordered).
  - apply NoDup_cons. split; [by intros H%list_elem_of_singleton|].
    apply NoDup_singleton.
  - reflexivity.
  - apply Permutation_swap.
Defined.

Lemma retry_transport_configuration_witness :
  example_int "3" = Some 3 ∧
  max_retries
    (PulpRetryAdapter {| HTTP_TOTAL_RETRIES := 3; HTTP_RETRY_BACKOFF := 1%float;
                         HTTP_TIMEOUT := 120 |} None None) =
    {| total := 3;
       status_forcelist := [500; 502; 503; 504];
       method_whitelist := ["HEAD"; "TRACE"; "GET"; "POST"; "PUT"; "OPTIONS"; "DELETE"];
       backoff_factor := 1%float |}.
Proof.
  pose proof (retry_transport_configuration example_int (fun _ => None)
                example_environ
                {| HTTP_TOTAL_RETRIES := 3; HTTP_RETRY_BACKOFF := 1%float;
                   HTTP_TIMEOUT := 120 |} eq_refl)
    as (_ & Hretries & _ & _ & Hpolicy & _).
  split; [exact Hretries|exact Hpolicy].
Defined.

Lemma do_request_by_verb_witness :
  (@do_request ruby_platform example_pulp 0%nat "delete" "tasks/t1/" None
     empty_state).1 = Ok None ∧
  trace (@do_request ruby_platform example_pulp 0%nat "delete" "tasks/t1/" None
           empty_state).2 = [].
Proof.
  apply (proj1 (@do_request_by_verb ruby_platform example_pulp 0%nat "delete"
                  "tasks/t1/" None empty_state)); discriminate.
Defined.

Lemma unassociate_ignores_status_witness :
  (@unassociate_units (example_platform (constant_server failed_response))
     example_pulp 0%nat "repo" [UModule ruby] ["modulemd"] empty_state).1 =
    Ok [JStr "t1"] ∧
  (@associate_units (example_platform (constant_server failed_response))
     example_pulp 0%nat "src" "repo" [UModule ruby] ["modulemd"] empty_state).1 =
    Raise (HTTPError 500).
Proof.
  destruct (@unassociate_ignores_status
              (example_platform (constant_server failed_response)) example_pulp
              0%nat "repo" "src" [UModule ruby] ["modulemd"]
              [module_conjunction ruby] failed_response empty_state
              eq_refl (fun _ _ => eq_refl))
    as [Hun Hraise].
  split; [exact Hun|exact (proj1 (Hraise eq_refl))].
Defined.

Lemma session_auth_by_length_witness :
  cert (@new_session ruby_platform example_pulp) = None ∧
  session_auth (@new_session ruby_platform example_pulp) = Some ["user"; "pass"].
Proof. exact (proj1 (@session_auth_by_length ruby_platform example_pulp)). Defined.

(** * Further properties *)

(** ** Query builder and unit classes *)

Lemma rmap_ok_iff {A B} (f : A → Result B) (l : list A) :
  is_ok (rmap f l) ↔ Forall (fun x => is_ok (f x)) l.
Proof.
  induction l as [|a l IH]; simpl.
  - split; [constructor|by eexists].
  - rewrite Forall_cons, <- IH. destruct (f a) as [b|e]; simpl.
    + destruct (rmap f l) as [bs|e]; simpl.
      * split; [intros _|intros _; by eexists]. split; by eexists.
      * split; [by intros [? ?]|by intros [_ [? ?]]].
    + split; [by intros [? ?]|by intros [[? ?] _]].
Qed.

Lemma rmap_Forall2 {A B} (f : A → Result B) (l : list A) (l' : list B) :
  Forall2 (fun x y => f x = Ok y) l l' → rmap f l = Ok l'.
Proof.
  induction 1 as [|x y l l' Hxy _ IH]; [done|].
  cbn [rmap]. rewrite Hxy. cbn [rbind]. by rewrite IH.
Qed.

(** X1. Which classes of units a query builder accepts. The module query
    builds exactly when every unit is a Module, and raises [AttributeError]
    for "context" otherwise; the module-defaults query builds exactly when
    no unit is a Package (a Module has a name and a stream as well), and
    raises [AttributeError] for "stream" otherwise; the package query builds
    exactly when every unit is a Package, and raises [AttributeError] for
    "filename" otherwise. *)
Theorem query_builders_by_unit_class (units : list Unit) :
  (is_ok (_modules_query units) ↔ Forall (fun u => is_module u = true) units) ∧
  (∀ e, _modules_query units = Raise e → e = AttributeError "context") ∧
  (is_ok (_module_defaults_query units) ↔
   Forall (fun u => is_package u = false) units) ∧
  (∀ e, _module_defaults_query units = Raise e → e = AttributeError "stream") ∧
  (is_ok (_rpms_query units) ↔ Forall (fun u => is_package u = true) units) ∧
  (∀ e, _rpms_query units = Raise e → e = AttributeError "filename").
Proof.
  repeat split.
  - intros H. apply rmap_ok_iff in H. eapply Forall_impl; [exact H|].
    intros [p|m|d] [j Hj]; done.
  - intros H. apply rmap_ok_iff. eapply Forall_impl; [exact H|].
    intros [p|m|d] Hu; try done. by eexists.
  - intros e (u & _ & Hu)%rmap_raise. destruct u as [p|m|d]; simpl in Hu; congruence.
  - intros H. apply rmap_ok_iff in H. eapply Forall_impl; [exact H|].
    intros [p|m|d] [j Hj]; done.
  - intros H. apply rmap_ok_iff. eapply Forall_impl; [exact H|].
    intros [p|m|d] Hu; try done; by eexists.
  - intros e (u & _ & Hu)%rmap_raise. destruct u as [p|m|d]; simpl in Hu; congruence.
  - intros H. apply rmap_ok_iff in H. eapply Forall_impl; [exact H|].
    intros [p|m|d] [j Hj]; done.
  - intros H. apply rmap_ok_iff. eapply Forall_impl; [exact H|].
    intros [p|m|d] Hu; try done; by eexists.
  - intros e (u & _ & Hu)%rmap_raise. destruct u as [p|m|d]; simpl in Hu; congruence.
Qed.

(** ** Associate and unassociate *)

Section AssociateFacts.
Context `{!Platform}.
Variable self : Pulp.

Lemma rpms_query_packages (rpms : list Package) :
  _rpms_query (map UPackage rpms) =
  Ok (map (fun p => JObj [("filename", JStr (pkg_filename p))]) rpms).
Proof.
  unfold _rpms_query. rewrite <- (map_map UPackage (fun u =>
    match u with
    | UPackage p => JObj [("filename", JStr (pkg_filename p))]
    | _ => JNull
    end)).
  apply rmap_ok_map. intros u Hu.
  apply list_elem_of_fmap in Hu as (p & -> & _). done.
Qed.

Lemma module_defaults_query_defaults (mds : list ModuleDefaults) :
  _module_defaults_query (map UModuleDefaults mds) =
  Ok (map (fun d => JObj [("$and", JArr [JObj [("name", JStr (md_name d))];
                                          JObj [("stream", JStr (md_stream d))]])])
          mds).
Proof.
  unfold _module_defaults_query. rewrite <- (map_map UModuleDefaults (fun u =>
    match u with
    | UModuleDefaults d =>
        JObj [("$and", JArr [JObj [("name", JStr (md_name d))];
                             JObj [("stream", JStr (md_stream d))]])]
    | _ => JNull
    end)).
  apply rmap_ok_map. intros u Hu.
  apply list_elem_of_fmap in Hu as (d & -> & _). done.
Qed.

(** X2. The package query has one clause per package, in input order, each
    an exact match on the filename alone; [associate_packages] and
    [unassociate_packages] send these clauses under "$or" with the type ids
    "rpm" and "srpm", in a POST to the associate or unassociate action of the
    destination repository. *)
Theorem packages_query_filenames (w : nat) (src dst : string) (rpms : list Package)
    (st : State) :
  _rpms_query (map UPackage rpms) =
    Ok (map (fun p => JObj [("filename", JStr (pkg_filename p))]) rpms) ∧
  last (trace (associate_packages self w src dst rpms st).2) =
    Some (EHttp w (post_request self
      ("repositories/" +:+ dst +:+ "/actions/associate/")
      (Some (JObj [("source_repo_id", JStr src);
                   ("criteria",
                    JObj [("type_ids", JArr [JStr "rpm"; JStr "srpm"]);
                          ("filters",
                           JObj [("unit",
                                  JObj [("$or",
                                         JArr (map (fun p =>
                                                 JObj [("filename",
                                                        JStr (pkg_filename p))])
                                               rpms))])])])])))) ∧
  last (trace (unassociate_packages self w dst rpms st).2) =
    Some (EHttp w (post_request self
      ("repositories/" +:+ dst +:+ "/actions/unassociate/")
      (Some (JObj [("criteria",
                    JObj [("type_ids", JArr [JStr "rpm"; JStr "srpm"]);
                          ("filters",
                           JObj [("unit",
                                  JObj [("$or",
                                         JArr (map (fun p =>
                                                 JObj [("filename",
                                                        JStr (pkg_filename p))])
                                               rpms))])])])])))).
Proof.
  pose proof (rpms_query_packages rpms) as Hq.
  split; [exact Hq|].
  assert (Hg : _get_query_list ["rpm"; "srpm"] (map UPackage rpms) =
               Ok (map (fun p => JObj [("filename", JStr (pkg_filename p))]) rpms))
    by done.
  split.
  - unfold associate_packages.
    rewrite (associate_units_eq _ _ _ _ _ _ _ _ Hg). simpl.
    by rewrite last_snoc.
  - unfold unassociate_packages.
    rewrite (unassociate_units_eq _ _ _ _ _ _ _ Hg). simpl.
    by rewrite last_snoc.
Qed.

(** X3. The module-defaults query has one clause per unit, in input order,
    each the conjunction of exact matches on name and stream;
    [associate_module_defaults] and [unassociate_module_defaults] send these
    clauses under "$or" with the type id "modulemd_defaults". *)
Theorem module_defaults_query_name_stream (w : nat) (src dst : string)
    (mds : list ModuleDefaults) (st : State) :
  let clause := fun d =>
    JObj [("$and", JArr [JObj [("name", JStr (md_name d))];
                         JObj [("stream", JStr (md_stream d))]])] in
  _module_defaults_query (map UModuleDefaults mds) = Ok (map clause mds) ∧
  last (trace (associate_module_defaults self w src dst mds st).2) =
    Some (EHttp w (post_request self
      ("repositories/" +:+ dst +:+ "/actions/associate/")
      (Some (JObj [("source_repo_id", JStr src);
                   ("criteria",
                    JObj [("type_ids", JArr [JStr "modulemd_defaults"]);
                          ("filters",
                           JObj [("unit", JObj [("$or", JArr (map clause mds))])])])])))) ∧
  last (trace (unassociate_module_defaults self w dst mds st).2) =
    Some (EHttp w (post_request self
      ("repositories/" +:+ dst +:+ "/actions/unassociate/")
      (Some (JObj [("criteria",
                    JObj [("type_ids", JArr [JStr "modulemd_defaults"]);
                          ("filters",
                           JObj [("unit", JObj [("$or", JArr (map clause mds))])])])])))).
Proof.
  intros clause. pose proof (module_defaults_query_defaults mds) as Hq.
  split; [exact Hq|].
  assert (Hg : _get_query_list ["modulemd_defaults"] (map UModuleDefaults mds) =
               Ok (map clause mds)) by done.
  split.
  - unfold associate_module_defaults.
    rewrite (associate_units_eq _ _ _ _ _ _ _ _ Hg). simpl.
    by rewrite last_snoc.
  - unfold unassociate_module_defaults.
    rewrite (unassociate_units_eq _ _ _ _ _ _ _ Hg). simpl.
    by rewrite last_snoc.
Qed.

(** X4. When the query list builds, associate and unassociate add to the
    trace one log record per unit, in input order, each carrying [str(unit)]
    and the repository ids, and after them the one HTTP request; nothing
    else. *)
Theorem associate_logs_each_unit (w : nat) (src dst : string) (units : list Unit)
    (type_ids : list string) (query_list : list JSON) (st : State) :
  _get_query_list type_ids units = Ok query_list →
  (∃ req,
     trace (associate_units self w src dst units type_ids st).2 =
       trace st ++
       map (fun unit => ELog "Associating %s from %s to %s" [unit_str unit; src; dst])
           units ++
       [EHttp w req]) ∧
  (∃ req,
     trace (unassociate_units self w dst units type_ids st).2 =
       trace st ++
       map (fun unit => ELog "Unassociating %s from %s" [unit_str unit; dst]) units ++
       [EHttp w req]).
Proof.
  intros Hq. split; eexists.
  - rewrite (associate_units_eq _ _ _ _ _ _ _ _ Hq). simpl.
    rewrite trace_with_session. simpl. by rewrite <- app_assoc.
  - rewrite (unassociate_units_eq _ _ _ _ _ _ _ Hq). simpl.
    rewrite trace_with_session. simpl. by rewrite <- app_assoc.
Qed.

(** X5. When the query list does not build (unsupported type ids, or a unit
    of the wrong class), associate and unassociate raise that exception and
    leave the state as it was: no session is created, nothing is logged and
    no request is sent. *)
Theorem associate_fails_before_any_effect (w : nat) (src dst : string)
    (units : list Unit) (type_ids : list string) (e : Exn) (st : State) :
  _get_query_list type_ids units = Raise e →
  associate_units self w src dst units type_ids st = (Raise e, st) ∧
  unassociate_units self w dst units type_ids st = (Raise e, st).
Proof.
  intros Hq. unfold associate_units, unassociate_units, bind, lift.
  by rewrite Hq.
Qed.

(** X6. On a response whose status does not make [raise_for_status] raise,
    associate and unassociate return the "task_id" of every entry of
    "spawned_tasks", in order; a body that does not decode raises
    [JSONDecodeError], and an object without "spawned_tasks" raises
    [KeyError]. *)
Theorem spawned_task_ids_returned (w : nat) (src dst : string) (units : list Unit)
    (type_ids : list string) (query_list : list JSON) (r : Response) (st : State) :
  _get_query_list type_ids units = Ok query_list →
  (∀ tr req, server tr req = Ok r) →
  raises_for_status (status_code r) = false →
  (∀ ret_json tasks ids,
     body r = Some ret_json →
     getitem ret_json "spawned_tasks" = Ok (JArr tasks) →
     Forall2 (fun task id => getitem task "task_id" = Ok id) tasks ids →
     (associate_units self w src dst units type_ids st).1 = Ok ids ∧
     (unassociate_units self w dst units type_ids st).1 = Ok ids) ∧
  (body r = None →
   (associate_units self w src dst units type_ids st).1 = Raise JSONDecodeError ∧
   (unassociate_units self w dst units type_ids st).1 = Raise JSONDecodeError) ∧
  (∀ kvs, body r = Some (JObj kvs) → assoc_get "spawned_tasks" kvs = None →
   (associate_units self w src dst units type_ids st).1 =
     Raise (KeyError "spawned_tasks") ∧
   (unassociate_units self w dst units type_ids st).1 =
     Raise (KeyError "spawned_tasks")).
Proof.
  intros Hq Hsrv Hstatus.
  rewrite (associate_units_eq _ _ _ _ _ _ _ _ Hq).
  rewrite (unassociate_units_eq _ _ _ _ _ _ _ Hq). simpl.
  rewrite !Hsrv. simpl. unfold raise_for_status. rewrite Hstatus. simpl.
  unfold response_json. split; [|split].
  - intros ret_json tasks ids -> Hsp Hids. simpl.
    unfold spawned_task_ids. rewrite Hsp. simpl.
    by rewrite (rmap_Forall2 _ _ _ Hids).
  - by intros ->.
  - intros kvs -> Hnone. simpl. unfold spawned_task_ids. simpl. by rewrite Hnone.
Qed.
End AssociateFacts.

(** ** Searches *)

Lemma rmap_Forall_out {A B} (f : A → Result B) (P : B → Prop) (l : list A)
    (l' : list B) :
  rmap f l = Ok l' → (∀ x y, f x = Ok y → P y) → Forall P l'.
Proof.
  intros Hl Hf. revert l' Hl. induction l as [|a l IH]; intros l'; simpl.
  - intros [= <-]. constructor.
  - destruct (f a) as [b|] eqn:Ea; simpl; [|done].
    destruct (rmap f l) as [bs|]; simpl; [|done].
    intros [= <-]. constructor; [by eapply Hf|by apply IH].
Qed.

Lemma rmap_ok_each {A B} (f : A → Result B) (l : list A) (l' : list B) (x : A) :
  rmap f l = Ok l' → x ∈ l → is_ok (f x).
Proof.
  intros Hl Hx. assert (H : is_ok (rmap f l)) by by eexists.
  apply rmap_ok_iff in H. by eapply Forall_forall in H.
Qed.

Ltac rbind_cases H :=
  repeat match type of H with
         | rbind ?x _ = Ok _ =>
             let E := fresh "E" in destruct x eqn:E; simpl in H; [|done]
         | match ?x with _ => _ end = Ok _ =>
             let E := fresh "E" in destruct x eqn:E; simpl in H; try done
         end.

Section SearchFacts.
Context `{!Platform}.
Variable self : Pulp.

(** X7. Every unit a search returns carries the id of the searched
    repository as its source repository; every package [search_rpms] returns
    is moreover not modular, and its version, release and epoch are those
    [split_filename] reads from its filename. *)
Theorem search_results_carry_repository (w : nat) (repo : string) (st : State) :
  (∀ name stream modules,
     (search_modules self w repo name stream st).1 = Ok modules →
     Forall (fun m => mod_associate_source_repo_id m = repo) modules) ∧
  (∀ name stream module_defaults,
     (search_module_defaults self w repo name stream st).1 = Ok module_defaults →
     Forall (fun d => md_associate_source_repo_id d = repo) module_defaults) ∧
  (∀ name arch name_globbing filename rpms,
     (search_rpms self w repo name arch name_globbing filename st).1 = Ok rpms →
     Forall (fun p =>
               pkg_associate_source_repo_id p = repo ∧ pkg_is_modular p = false ∧
               ∃ n a, split_filename (pkg_filename p) =
                        Ok (n, pkg_version p, pkg_release p, pkg_epoch p, a))
            rpms).
Proof.
  split; [|split].
  - intros name stream modules. unfold search_modules. rewrite search_post. simpl.
    intros Hres. rbind_cases Hres.
    eapply rmap_Forall_out; [exact Hres|]. clear.
    intros item m Hm. cbv beta in Hm. rbind_cases Hm. by injection Hm as <-.
  - intros name stream mds. unfold search_module_defaults. rewrite search_post.
    simpl. intros Hres. rbind_cases Hres.
    eapply rmap_Forall_out; [exact Hres|]. clear.
    intros item d Hd. cbv beta in Hd. rbind_cases Hd. by injection Hd as <-.
  - intros name arch glob filename rpms. unfold search_rpms. rewrite search_post.
    simpl. intros Hres. rbind_cases Hres.
    eapply rmap_Forall_out; [exact Hres|]. clear.
    intros item p Hp. cbv beta in Hp. rbind_cases Hp.
    all: unfold Package_init in Hp;
      destruct (split_filename _) as [[[[[pn pv] prel] pep] parch]|] eqn:Es;
      simpl in Hp;
      [|done]; injection Hp as <-; simpl; rewrite Es; eauto.
Qed.

Lemma truthy_Some (n : string) : n ≠ "" → truthy (Some n) = true.
Proof. intros Hn. simpl. by apply String.eqb_neq in Hn as ->. Qed.

(** X8. With both a name and a stream, neither empty, [search_modules] and
    [search_module_defaults] send exactly one POST, whatever the outcome, whose
    criteria filter the units on that name and that stream. *)
Theorem search_with_name_and_stream_is_filtered (w : nat) (repo n s : string)
    (st : State) :
  n ≠ "" → s ≠ "" →
  trace (search_modules self w repo (Some n) (Some s) st).2 =
    trace st ++
    [EHttp w (post_request self (search_url repo)
       (Some (JObj [("criteria",
                     JObj [("type_ids", JArr [JStr "modulemd"]);
                           ("filters",
                            JObj [("unit", JObj [("name", JStr n);
                                                 ("stream", JStr s)])])])])))] ∧
  trace (search_module_defaults self w repo (Some n) (Some s) st).2 =
    trace st ++
    [EHttp w (post_request self (search_url repo)
       (Some (JObj [("criteria",
                     JObj [("type_ids", JArr [JStr "modulemd_defaults"]);
                           ("filters",
                            JObj [("unit", JObj [("name", JStr n);
                                                 ("stream", JStr s)])])])])))].
Proof.
  intros Hn Hs. unfold search_modules, search_module_defaults, name_stream_criteria.
  rewrite !truthy_Some by done. rewrite !search_post. simpl.
  by rewrite !trace_with_session.
Qed.

(** X9. The filter of [search_rpms]. Without a name the globbing flag changes
    nothing; without name, architecture and filename the request still carries
    a unit filter, the empty one; with a name alone, globbing sends the name
    as the regular expression "name.*", and no globbing sends it for exact
    match. *)
Theorem search_rpms_filter (w : nat) (repo n : string) (st : State) :
  n ≠ "" →
  (∀ name arch filename,
     truthy name = false →
     search_rpms self w repo name arch true filename st =
     search_rpms self w repo name arch false filename st) ∧
  (∀ name arch filename,
     truthy name = false → truthy arch = false → truthy filename = false →
     trace (search_rpms self w repo name arch false filename st).2 =
       trace st ++
       [EHttp w (post_request self (search_url repo)
          (Some (JObj [("criteria",
                        JObj [("type_ids", JArr [JStr "rpm"; JStr "srpm"]);
                              ("filters", JObj [("unit", JObj [])])])])))]) ∧
  trace (search_rpms self w repo (Some n) None true None st).2 =
    trace st ++
    [EHttp w (post_request self (search_url repo)
       (Some (JObj [("criteria",
                     JObj [("type_ids", JArr [JStr "rpm"; JStr "srpm"]);
                           ("filters",
                            JObj [("unit",
                                   JObj [("name",
                                          JObj [("$regex", JStr (n +:+ ".*"))])])])])])))] ∧
  trace (search_rpms self w repo (Some n) None false None st).2 =
    trace st ++
    [EHttp w (post_request self (search_url repo)
       (Some (JObj [("criteria",
                     JObj [("type_ids", JArr [JStr "rpm"; JStr "srpm"]);
                           ("filters",
                            JObj [("unit", JObj [("name", JStr n)])])])])))].
Proof.
  intros Hn. split; [|split; [|split]].
  - intros name arch filename Hname. unfold search_rpms. by rewrite Hname.
  - intros name arch filename Hname Harch Hfile. unfold search_rpms.
    rewrite Hname, Harch, Hfile. rewrite search_post. simpl.
    by rewrite trace_with_session.
  - unfold search_rpms. rewrite truthy_Some by done. rewrite search_post. simpl.
    by rewrite trace_with_session.
  - unfold search_rpms. rewrite truthy_Some by done. rewrite search_post. simpl.
    by rewrite trace_with_session.
Qed.

(** X10. A search returns no partial result: when the service answers with
    a list in which some record has no readable "metadata", each of the three
    searches raises. *)
Theorem search_fails_on_malformed_record (w : nat) (repo : string) (r : Response)
    (records : list JSON) (record : JSON) (e0 : Exn) (st : State) :
  (∀ tr req, server tr req = Ok r) →
  body r = Some (JArr records) →
  record ∈ records →
  getitem record "metadata" = Raise e0 →
  (∀ name stream,
     ∃ e, (search_modules self w repo name stream st).1 = Raise e) ∧
  (∀ name stream,
     ∃ e, (search_module_defaults self w repo name stream st).1 = Raise e) ∧
  (∀ name arch name_globbing filename,
     ∃ e, (search_rpms self w repo name arch name_globbing filename st).1 = Raise e).
Proof.
  intros Hsrv Hbody Hin Hbad.
  split; [|split].
  - intros name stream. unfold search_modules. rewrite search_post. simpl.
    rewrite Hsrv. simpl. destruct (raise_for_status r); simpl; [|by eexists].
    unfold response_json. rewrite Hbody. simpl.
    match goal with |- ∃ e, rmap ?f records = Raise e =>
      destruct (rmap f records) as [l'|e] eqn:El; [|by eexists];
      destruct (rmap_ok_each f records l' record El Hin) as [y Hy] end.
    cbv beta in Hy. rewrite Hbad in Hy. done.
  - intros name stream. unfold search_module_defaults. rewrite search_post. simpl.
    rewrite Hsrv. simpl. destruct (raise_for_status r); simpl; [|by eexists].
    unfold response_json. rewrite Hbody. simpl.
    match goal with |- ∃ e, rmap ?f records = Raise e =>
      destruct (rmap f records) as [l'|e] eqn:El; [|by eexists];
      destruct (rmap_ok_each f records l' record El Hin) as [y Hy] end.
    cbv beta in Hy. rewrite Hbad in Hy. done.
  - intros name arch glob filename. unfold search_rpms. rewrite search_post. simpl.
    rewrite Hsrv. simpl. destruct (raise_for_status r); simpl; [|by eexists].
    unfold response_json. rewrite Hbody. simpl.
    match goal with |- ∃ e, rmap ?f records = Raise e =>
      destruct (rmap f records) as [l'|e] eqn:El; [|by eexists];
      destruct (rmap_ok_each f records l' record El Hin) as [y Hy] end.
    cbv beta in Hy. rewrite Hbad in Hy. done.
Qed.
End SearchFacts.

(** ** What the operations add to the trace *)

Section TraceFacts.
Context `{!Platform}.
Variable self : Pulp.
Variable w : nat.

Lemma extends_ret {A} (a : A) : extends self w (ret a).
Proof. intros st. exists []. by rewrite app_nil_r. Qed.

Lemma extends_lift {A} (r : Result A) : extends self w (lift r).
Proof. intros st. exists []. by rewrite app_nil_r. Qed.

Lemma extends_bind {A B} (m : M A) (k : A → M B) :
  extends self w m → (∀ a, extends self w (k a)) → extends self w (bind m k).
Proof.
  intros Hm Hk st. unfold bind. destruct (Hm st) as (tr1 & Htr1 & Hev1).
  destruct (m st) as [[a|e] st1]; simpl in *.
  - destruct (Hk a st1) as (tr2 & Htr2 & Hev2). exists (tr1 ++ tr2).
    rewrite Htr2, Htr1, app_assoc. split; [done|]. by apply Forall_app.
  - by exists tr1.
Qed.

Lemma extends_mapM {A B} (f : A → M B) (l : list A) :
  (∀ a, extends self w (f a)) → extends self w (mapM f l).
Proof.
  intros Hf. induction l as [|a l IH]; simpl; [apply extends_ret|].
  apply extends_bind; [done|]. intros b.
  apply extends_bind; [done|]. intros bs. apply extends_ret.
Qed.

Lemma extends_emit (e : Event) :
  client_event self w e →
  extends self w (fun st => (Ok tt, emit e st)).
Proof. intros He st. exists [e]. split; [done|]. by constructor. Qed.

Lemma extends_do_request (req_type url : string) (data : option JSON) :
  extends self w (do_request self w req_type url data).
Proof.
  intros st. destruct (decide (req_type = "post")) as [->|Hp];
    [|destruct (decide (req_type = "get")) as [->|Hg]].
  - rewrite do_request_post. simpl. rewrite trace_with_session.
    eexists. split; [done|]. constructor; [|done]. simpl. eauto 10.
  - rewrite do_request_get. simpl. rewrite trace_with_session.
    eexists. split; [done|]. constructor; [|done]. simpl. eauto 10.
  - rewrite do_request_other by done. simpl. rewrite trace_with_session.
    exists []. by rewrite app_nil_r.
Qed.

Lemma extends_wait_round (delay : float) (acc : gset string * gmap Key JSON) :
  extends self w (wait_round self w delay acc).
Proof.
  unfold wait_round. apply extends_bind.
  { apply extends_mapM. intros t. apply extends_bind; [apply extends_do_request|].
    intros ret. apply extends_lift. }
  intros statuses. apply extends_bind; [apply extends_lift|]. intros acc'.
  apply extends_bind; [|intros; apply extends_ret].
  destruct (decide (acc'.1 = ∅)); [apply extends_ret|].
  by apply extends_emit.
Qed.

Lemma extends_wait_loop (delay : float) (fuel : nat)
    (acc : gset string * gmap Key JSON) (st : State)
    (r : Result (gmap Key JSON)) (st' : State) :
  wait_loop self fuel w delay acc st = Some (r, st') →
  ∃ tr, trace st' = trace st ++ tr ∧ Forall (client_event self w) tr.
Proof.
  revert acc st. induction fuel as [|fuel IH]; intros acc st; [done|]. simpl.
  destruct (decide (acc.1 = ∅)).
  { intros [= <- <-]. exists []. by rewrite app_nil_r. }
  destruct (extends_wait_round delay acc st) as (tr1 & Htr1 & Hev1).
  destruct (wait_round self w delay acc st) as [[acc'|e] st1]; simpl in *.
  - intros (tr2 & Htr2 & Hev2)%IH. exists (tr1 ++ tr2).
    rewrite Htr2, Htr1, app_assoc. split; [done|]. by apply Forall_app.
  - intros [= <- <-]. by exists tr1.
Qed.

Lemma extends_search_rpms (repo : string) (name arch : option string)
    (name_globbing : bool) (filename : option string) :
  extends self w (search_rpms self w repo name arch name_globbing filename).
Proof.
  apply extends_bind; [apply extends_do_request|]. intros. apply extends_lift.
Qed.

Lemma extends_search_modules (repo : string) (name stream : option string) :
  extends self w (search_modules self w repo name stream).
Proof.
  apply extends_bind; [apply extends_do_request|]. intros. apply extends_lift.
Qed.

Lemma extends_search_module_defaults (repo : string) (name stream : option string) :
  extends self w (search_module_defaults self w repo name stream).
Proof.
  apply extends_bind; [apply extends_do_request|]. intros. apply extends_lift.
Qed.

Lemma extends_associate_units (src dst : string) (units : list Unit)
    (type_ids : list string) :
  extends self w (associate_units self w src dst units type_ids).
Proof.
  apply extends_bind; [apply extends_lift|]. intros q.
  apply extends_bind.
  { apply extends_mapM. intros u. by apply extends_emit. }
  intros _. apply extends_bind; [apply extends_do_request|].
  intros. apply extends_lift.
Qed.

Lemma extends_unassociate_units (repo : string) (units : list Unit)
    (type_ids : list string) :
  extends self w (unassociate_units self w repo units type_ids).
Proof.
  apply extends_bind; [apply extends_lift|]. intros q.
  apply extends_bind.
  { apply extends_mapM. intros u. by apply extends_emit. }
  intros _. apply extends_bind; [apply extends_do_request|].
  intros. apply extends_lift.
Qed.

(** X11. Every operation of the client only appends to the trace, and what
    it appends are log records, sleeps and requests of the calling worker
    with method GET or POST, a URL under the base URL, [verify] set to the
    negation of [insecure] and the module's timeout. *)
Theorem operations_only_append_client_events :
  (∀ req_type url data, extends self w (do_request self w req_type url data)) ∧
  (∀ repo name arch name_globbing filename,
     extends self w (search_rpms self w repo name arch name_globbing filename)) ∧
  (∀ repo name stream, extends self w (search_modules self w repo name stream)) ∧
  (∀ repo name stream,
     extends self w (search_module_defaults self w repo name stream)) ∧
  (∀ src dst units type_ids,
     extends self w (associate_units self w src dst units type_ids)) ∧
  (∀ repo units type_ids,
     extends self w (unassociate_units self w repo units type_ids)) ∧
  (∀ fuel task_id_list delay st r st',
     wait_for_tasks self fuel w task_id_list delay st = Some (r, st') →
     ∃ tr, trace st' = trace st ++ tr ∧ Forall (client_event self w) tr).
Proof.
  split; [apply extends_do_request|].
  split; [apply extends_search_rpms|].
  split; [apply extends_search_modules|].
  split; [apply extends_search_module_defaults|].
  split; [apply extends_associate_units|].
  split; [apply extends_unassociate_units|].
  intros fuel ids delay st r st'. apply extends_wait_loop.
Qed.
End TraceFacts.

Section ClientRuns.
Context `{!Platform}.
Variable self : Pulp.

Lemma client_states_step (w : nat) (st st' : State) (tr0 : list Event) :
  (∃ tr, trace st = tr0 ++ tr ∧ Forall (fun e => ∃ w, client_event self w e) tr) →
  (∃ tr, trace st' = trace st ++ tr ∧ Forall (client_event self w) tr) →
  ∃ tr, trace st' = tr0 ++ tr ∧ Forall (fun e => ∃ w, client_event self w e) tr.
Proof.
  intros (tr1 & Htr1 & Hev1) (tr2 & Htr2 & Hev2). exists (tr1 ++ tr2).
  rewrite Htr2, Htr1, app_assoc. split; [done|]. apply Forall_app. split; [done|].
  eapply Forall_impl; [exact Hev2|]. intros e He. by exists w.
Qed.

(** X15. In every state the client goes through, the trace is the one
    [__init__] left (the insecure-request warning disabled once, exactly when
    [insecure] is set) followed by log records, sleeps and GET or POST
    requests carrying the client's [verify] and timeout: the warning is never
    touched again, and no request is sent with other settings. *)
Theorem warnings_disabled_at_construction_only (st : State) :
  client_states self st →
  ∃ tr, trace st = (if insecure self then [EDisableWarnings] else []) ++ tr ∧
        Forall (fun e => ∃ w, client_event self w e) tr.
Proof.
  induction 1 as [|st w req_type url data _ IH
                  |st w repo name arch glob filename _ IH
                  |st w repo name stream _ IH
                  |st w repo name stream _ IH
                  |st w src dst units type_ids _ IH
                  |st w repo units type_ids _ IH
                  |st fuel w ids delay r st' _ IH Hrun].
  - exists []. by rewrite app_nil_r.
  - eapply client_states_step; [exact IH|apply extends_do_request].
  - eapply client_states_step; [exact IH|apply extends_search_rpms].
  - eapply client_states_step; [exact IH|apply extends_search_modules].
  - eapply client_states_step; [exact IH|apply extends_search_module_defaults].
  - eapply client_states_step; [exact IH|apply extends_associate_units].
  - eapply client_states_step; [exact IH|apply extends_unassociate_units].
  - eapply client_states_step; [exact IH|].
    eapply extends_wait_loop. exact Hrun.
Qed.
End ClientRuns.

(** ** Further facts on the task tracker *)

Lemma search_tasks_bodies_only (P : Platform)
    (srv' : list Event → HttpRequest → Result Response) (self : Pulp) (w : nat)
    (l : list string) (st : State) :
  (∀ tr req, rbind (@server P tr req) response_json = rbind (srv' tr req) response_json) →
  @search_tasks (with_server P srv') self w l st = @search_tasks P self w l st.
Proof.
  intros Hsrv. revert st. induction l as [|t l IH]; intros st; [done|].
  rewrite (@search_tasks_cons P), (@search_tasks_cons (with_server P srv')).
  change (@server (with_server P srv')) with srv'.
  change (@task_request (with_server P srv') self t) with (@task_request P self t).
  change (@with_session (with_server P srv') self w st)
    with (@with_session P self w st).
  rewrite <- Hsrv. destruct (rbind _ response_json); [|done].
  by rewrite IH.
Qed.

(** X12. [wait_for_tasks] reads the bodies of the status responses only:
    two services whose responses decode to the same bodies (or fail alike)
    give the same run, whatever status codes they answer with. *)
Theorem wait_for_tasks_reads_bodies_only (P : Platform)
    (srv' : list Event → HttpRequest → Result Response) (self : Pulp)
    (fuel w : nat) (task_id_list : list string) (delay : float) (st : State) :
  (∀ tr req, rbind (@server P tr req) response_json = rbind (srv' tr req) response_json) →
  @wait_for_tasks (with_server P srv') self fuel w task_id_list delay st =
  @wait_for_tasks P self fuel w task_id_list delay st.
Proof.
  intros Hsrv. unfold wait_for_tasks.
  generalize (list_to_set task_id_list : gset string, (∅ : gmap Key JSON)).
  revert st. induction fuel as [|fuel IH]; intros st acc; [done|]. simpl.
  destruct (decide (acc.1 = ∅)); [done|].
  assert (Hround : @wait_round (with_server P srv') self w delay acc st =
                   @wait_round P self w delay acc st).
  { unfold wait_round, bind.
    change (@set_order (with_server P srv')) with (@set_order P).
    by rewrite (search_tasks_bodies_only P srv' self w _ st Hsrv). }
  rewrite Hround. destruct (@wait_round P self w delay acc st) as [[acc'|e] st1].
  - apply IH.
  - done.
Qed.

Section TrackerEdges.
Context `{!Platform}.
Variable self : Pulp.
Variable w : nat.
Variable delay : float.

(** X13. With no task id, [wait_for_tasks] returns the empty mapping at
    once, without a request or a sleep. When the transport fails, it raises
    the transport's exception after the first status request, without
    sleeping. *)
Theorem wait_for_tasks_empty_and_failing (fuel : nat) (ids : list string)
    (e : Exn) (st : State) :
  (∀ s, set_order s ≡ₚ elements s) →
  (∀ tr req, server tr req = Raise e) →
  ids ≠ [] →
  wait_for_tasks self (S fuel) w [] delay st = Some (Ok ∅, st) ∧
  ∃ t st', t ∈ ids ∧
           wait_for_tasks self (S fuel) w ids delay st = Some (Raise e, st') ∧
           trace st' = trace st ++ [EHttp w (task_request self t)].
Proof.
  intros Horder Hsrv Hids. split; [done|].
  unfold wait_for_tasks.
  assert (Hne : (list_to_set ids : gset string) ≠ ∅).
  { destruct ids as [|t0 ids']; [done|]. set_solver. }
  assert (Hin : ∀ t, t ∈ set_order (list_to_set ids) → t ∈ ids).
  { intros t. rewrite Horder, elem_of_elements. apply elem_of_list_to_set. }
  remember (list_to_set ids : gset string) as pending eqn:Hpending.
  destruct (set_order pending) as [|t l] eqn:El.
  { exfalso. pose proof (Horder pending) as Hp.
    rewrite El in Hp. symmetry in Hp. apply Permutation_nil_r in Hp.
    by apply elements_empty_inv, leibniz_equiv in Hp. }
  exists t. eexists. split; [apply Hin; by left|].
  cbn [wait_loop fst]. rewrite decide_False by done.
  unfold wait_round, bind. cbn [fst]. rewrite El.
  rewrite search_tasks_cons, Hsrv. cbn [rbind]. split; [done|].
  cbn [snd emit trace]. by rewrite trace_with_session.
Qed.

(** X16. When the status of a task comes without a "state", [wait_for_tasks]
    raises [KeyError] for "state", after it has requested the status of every
    pending id of the round and before any sleep. *)
Theorem wait_for_tasks_status_without_state (fuel : nat) (ids : list string)
    (r : Response) (kvs : list (string * JSON)) (st : State) :
  (∀ s, set_order s ≡ₚ elements s) →
  (∀ tr req, server tr req = Ok r) →
  body r = Some (JObj kvs) →
  assoc_get "state" kvs = None →
  ids ≠ [] →
  ∃ st', wait_for_tasks self (S fuel) w ids delay st =
           Some (Raise (KeyError "state"), st') ∧
         trace st' = trace st ++ gets self w (set_order (list_to_set ids)).
Proof.
  intros Horder Hsrv Hbody Hstate Hids. unfold wait_for_tasks.
  assert (Hne : (list_to_set ids : gset string) ≠ ∅).
  { destruct ids as [|t0 ids']; [done|]. set_solver. }
  remember (list_to_set ids : gset string) as pending eqn:Hpending.
  destruct (search_tasks_ok self w (fun _ => JObj kvs) (set_order pending) st)
    as [st1 Hsearch].
  { intros pre t post _. rewrite Hsrv. simpl. unfold response_json. by rewrite Hbody. }
  exists st1. split; [|by apply search_tasks_trace in Hsearch].
  cbn [wait_loop fst]. rewrite decide_False by done.
  unfold wait_round, bind. cbn [fst]. rewrite Hsearch. unfold lift.
  destruct (set_order pending) as [|t l] eqn:El.
  { exfalso. pose proof (Horder pending) as Hp.
    rewrite El in Hp. symmetry in Hp. apply Permutation_nil_r in Hp.
    by apply elements_empty_inv, leibniz_equiv in Hp. }
  cbn [map record_statuses]. unfold record_status. simpl. by rewrite Hstate.
Qed.
End TrackerEdges.

(** ** The environment *)

(** X14. Reading the module constants succeeds exactly when each of the
    three environment variables is unset or holds a numeral that [int]
    (total retries, timeout) or [float] (backoff) accepts; the only failure
    is the [ValueError] of the conversion. *)
Theorem load_config_needs_numbers (py_int : string → option Z)
    (py_float : string → option float) (environ : gmap string string) :
  (is_ok (load_config py_int py_float environ) ↔
   (∀ s, environ !! "UBIPOP_HTTP_TOTAL_RETRIES" = Some s → is_Some (py_int s)) ∧
   (∀ s, environ !! "UBIPOP_HTTP_RETRY_BACKOFF" = Some s → is_Some (py_float s)) ∧
   (∀ s, environ !! "UBIPOP_HTTP_TIMEOUT" = Some s → is_Some (py_int s))) ∧
  (∀ e, load_config py_int py_float environ = Raise e → e = ValueError).
Proof.
  unfold load_config, int_of_env, float_of_env.
  destruct (environ !! "UBIPOP_HTTP_TOTAL_RETRIES") as [s1|];
    [destruct (py_int s1) as [n1|] eqn:E1|];
    (destruct (environ !! "UBIPOP_HTTP_RETRY_BACKOFF") as [s2|];
       [destruct (py_float s2) as [x2|] eqn:E2|]);
    (destruct (environ !! "UBIPOP_HTTP_TIMEOUT") as [s3|];
       [destruct (py_int s3) as [n3|] eqn:E3|]);
    simpl; (split; [split|]);
    try (intros _; repeat split; intros ? [= <-]; by eauto);
    try (intros _; by eexists);
    try (by intros [? ?]);
    try (intros (H1 & H2 & H3); exfalso;
         first [destruct (H1 _ eq_refl) as [? ?]; congruence
               |destruct (H2 _ eq_refl) as [? ?]; congruence
               |destruct (H3 _ eq_refl) as [? ?]; congruence]);
    try (intros ? [= <-]; done);
    try done.
Qed.

(** ** The further properties at concrete inputs *)

Lemma associate_logs_each_unit_witness :
  ∃ req,
    trace (@associate_units ruby_platform example_pulp 0%nat "src" "repo"
             [UModule ruby] ["modulemd"] empty_state).2 =
    [] ++ [ELog "Associating %s from %s to %s"
             ["ruby:2.5:20190101:abcd1234:x86_64"; "src"; "repo"]] ++
    [EHttp 0 req].
Proof.
  exact (proj1 (@associate_logs_each_unit ruby_platform example_pulp 0%nat
                  "src" "repo" [UModule ruby] ["modulemd"]
                  [module_conjunction ruby] empty_state eq_refl)).
Defined.

Lemma associate_fails_before_any_effect_witness :
  @associate_units ruby_platform example_pulp 0%nat "src" "repo"
    [UModule ruby] ["erratum"] empty_state = (Raise UnsupportedTypeId, empty_state).
Proof.
  exact (proj1 (@associate_fails_before_any_effect ruby_platform example_pulp 0%nat
                  "src" "repo" [UModule ruby] ["erratum"] UnsupportedTypeId
                  empty_state eq_refl)).
Defined.

Lemma spawned_task_ids_returned_witness :
  (@associate_units (example_platform (constant_server spawned_response))
     example_pulp 0%nat "src" "repo" [UModule ruby] ["modulemd"] empty_state).1 =
  Ok [JStr "t1"].
Proof.
  refine (proj1 (proj1 (@spawned_task_ids_returned
                          (example_platform (constant_server spawned_response))
                          example_pulp 0%nat "src" "repo" [UModule ruby] ["modulemd"]
                          [module_conjunction ruby] spawned_response empty_state
                          eq_refl (fun _ _ => eq_refl) eq_refl)
                   _ [JObj [("task_id", JStr "t1")]] [JStr "t1"] eq_refl eq_refl _)).
  constructor; [reflexivity|constructor].
Defined.

Lemma search_with_name_and_stream_is_filtered_witness :
  trace (@search_modules ruby_platform example_pulp 0%nat "repo"
           (Some "ruby") (Some "2.5") empty_state).2 =
  [] ++
  [EHttp 0 (@post_request ruby_platform example_pulp (search_url "repo")
      (Some (JObj [("criteria",
                    JObj [("type_ids", JArr [JStr "modulemd"]);
                          ("filters",
                           JObj [("unit", JObj [("name", JStr "ruby");
                                                ("stream", JStr "2.5")])])])])))].
Proof.
  apply (@search_with_name_and_stream_is_filtered ruby_platform example_pulp 0%nat
           "repo" "ruby" "2.5" empty_state); discriminate.
Defined.

Lemma search_rpms_filter_witness :
  @search_rpms ruby_platform example_pulp 0%nat "repo" None (Some "x86_64") true None
    empty_state =
  @search_rpms ruby_platform example_pulp 0%nat "repo" None (Some "x86_64") false None
    empty_state.
Proof.
  apply (@search_rpms_filter ruby_platform example_pulp 0%nat "repo" "ruby"
           empty_state); [discriminate|reflexivity].
Defined.

Lemma search_fails_on_malformed_record_witness :
  ∃ e, (@search_modules (example_platform (constant_server malformed_response))
          example_pulp 0%nat "repo" None None empty_state).1 = Raise e.
Proof.
  apply (@search_fails_on_malformed_record
           (example_platform (constant_server malformed_response)) example_pulp
           0%nat "repo" malformed_response [ruby_metadata; JObj []] (JObj [])
           (KeyError "metadata") empty_state).
  - reflexivity.
  - reflexivity.
  - right. left.
  - reflexivity.
Defined.

Lemma wait_for_tasks_reads_bodies_only_witness :
  @wait_for_tasks (with_server (example_platform example_task_server)
                     example_task_server_500)
    example_pulp 3 0%nat ["t1"; "t2"] 5%float empty_state =
  @wait_for_tasks (example_platform example_task_server)
    example_pulp 3 0%nat ["t1"; "t2"] 5%float empty_state.
Proof.
  apply (wait_for_tasks_reads_bodies_only (example_platform example_task_server)
           example_task_server_500).
  intros tr req. reflexivity.
Defined.

Lemma wait_for_tasks_empty_and_failing_witness :
  @wait_for_tasks (example_platform failing_server) example_pulp 1 0%nat []
    5%float empty_state = Some (Ok ∅, empty_state) ∧
  ∃ t st', t ∈ ["t1"] ∧
           @wait_for_tasks (example_platform failing_server) example_pulp 1 0%nat
             ["t1"] 5%float empty_state = Some (Raise TransportError, st') ∧
           trace st' =
             trace empty_state ++
             [EHttp 0 (@task_request (example_platform failing_server)
                         example_pulp t)].
Proof.
  apply (@wait_for_tasks_empty_and_failing (example_platform failing_server)
           example_pulp 0%nat 5%float 0%nat ["t1"] TransportError empty_state).
  - intros s. reflexivity.
  - reflexivity.
  - discriminate.
Defined.

Lemma warnings_disabled_at_construction_only_witness :
  ∃ tr,
    trace (@do_request ruby_platform example_pulp 0%nat "get" "tasks/t1/" None
             (@Pulp_init ruby_platform "pulp.example.com" ["user"; "pass"] false).2).2 =
    [] ++ tr ∧
    Forall (fun e => ∃ w, @client_event ruby_platform example_pulp w e) tr.
Proof.
  apply (@warnings_disabled_at_construction_only ruby_platform example_pulp).
  apply (@cs_do_request ruby_platform example_pulp). apply cs_init.
Defined.

Lemma wait_for_tasks_status_without_state_witness :
  ∃ st',
    @wait_for_tasks (example_platform (constant_server stateless_response))
      example_pulp 1 0%nat ["t1"] 5%float empty_state =
      Some (Raise (KeyError "state"), st') ∧
    trace st' =
      trace empty_state ++
      @gets (example_platform (constant_server stateless_response)) example_pulp
        0%nat (elements (list_to_set ["t1"] : gset string)).
Proof.
  apply (@wait_for_tasks_status_without_state
           (example_platform (constant_server stateless_response)) example_pulp
           0%nat 5%float 0%nat ["t1"] stateless_response [("task_id", JStr "t1")]
           empty_state).
  - intros s. reflexivity.
  - reflexivity.
  - reflexivity.
  - reflexivity.
  - discriminate.
Defined.
